(** * SpecLedger: the record resolver, spec projector, filter engine and
      dataset loader of the site scripts, as a shallow embedding.

    Sources embedded here:
    - [src/assets/js/site.js] (first revision in the file, lines 1-325):
      [getQueryParams], [getComparisonIds], [addStructuredData],
      [flattenValue], [updatePageMeta], [generateComparisonTable];
    - [src/assets/js/site.js], further: [fetchPhonesData], [hasQueryParams],
      [isProgrammaticPage], [setRobotsMeta], [setCanonicalUrl],
      [displayPhonesList];
    - [src/unnamed/part_000]: [fetchJSON], [text], [formatDate], [uniq], [el],
      [loadPhones], [renderCompare], [matches], [card], [repaint],
      [renderPhone], and the [DOMContentLoaded] handler;
    - [src/unnamed/part_001]: [validatePhoneSelection] and the click listener
      of [handleComparisonBuilder];
    - [src/unnamed/part_002]: the first revision of [generateComparisonTable].

    Modelling conventions.
    - A JavaScript value that comes out of [JSON.parse] is a [value]. A number
      is carried by its canonical rendering (what [String(n)] returns): the
      scripts never do arithmetic on dataset numbers, they only print them,
      test them for truthiness and compare them with [===].
    - An object is the list of its own enumerable properties in enumeration
      order (the order of [Object.keys] / [Object.values]), each key once.
    - Strings are byte strings, the UTF-8 form of the JavaScript string;
      [toLowerCase] and [trim] are modelled on the ASCII range. A surrogate
      with no partner, which a parsed string may hold, is carried by its
      three-byte form.
    - A parsed object prints as [[object Object]]: a dataset is taken to give
      no object a property named [toString].
    - The DOM is an explicit record that the functions thread through; an
      element that a page may lack is an [option]. A call that can throw
      returns a [completion], or an [option] when it leaves no state behind.
    - What the host decides ([Date] parsing and formatting, and the markup
      that reading [innerHTML] returns) and the page code that the load
      handler dispatches to are section variables. *)

From Stdlib Require Import Ascii String DecimalString.
From stdpp Require Import base list strings gmap sorting.

(** ** JavaScript values and the primitives the scripts use *)

#[local] Set Warnings "-register-all".

Module JS.

Inductive value : Type :=
  | JUndefined
  | JNull
  | JBool (b : bool)
  | JNum (repr : string)
  | JStr (s : string)
  | JArr (elems : list value)
  | JObj (props : list (string * value)).

(** [ToBoolean]: what [if (v)], [v && ...], [!v] and [filter(v => v)] test.
    The canonical rendering of both zeros is ["0"]; JSON has no NaN. *)
Definition truthy (v : value) : bool :=
  match v with
  | JUndefined | JNull => false
  | JBool b => b
  | JNum r => negb (String.eqb r "0")
  | JStr s => negb (String.eqb s "")
  | JArr _ | JObj _ => true
  end.

(** [Array.prototype.join] on strings. *)
Definition join (sep : string) (parts : list string) : string :=
  String.concat sep parts.

(** [ToString]: template literals, [String(v)] and the element conversion of
    [Array.prototype.join] (where [null] and [undefined] give the empty
    string). *)
Fixpoint ToString (v : value) : string :=
  match v with
  | JUndefined => "undefined"
  | JNull => "null"
  | JBool true => "true"
  | JBool false => "false"
  | JNum r => r
  | JStr s => s
  | JArr es =>
      join ","
        (map (fun e => match e with
                       | JUndefined | JNull => ""
                       | _ => ToString e
                       end) es)
  | JObj _ => "[object Object]"
  end.

Definition join_element (v : value) : string :=
  match v with
  | JUndefined | JNull => ""
  | _ => ToString v
  end.

(** [arr.join(sep)] on an array of values. *)
Definition array_join (sep : string) (vs : list value) : string :=
  join sep (map join_element vs).

(** Own-property lookup [o[k]]: [undefined] when the key is absent. The keys
    the scripts read ([id], [brand], [model], [items], ...) are not members of
    [Object.prototype], so the prototype chain adds nothing. *)
Fixpoint lookup_prop (k : string) (props : list (string * value)) : value :=
  match props with
  | [] => JUndefined
  | (k', v) :: rest => if String.eqb k k' then v else lookup_prop k rest
  end.

(** Optional chaining [v?.k]: [undefined] on [null] and [undefined], the
    property otherwise; a primitive or an array has none of the keys read. *)
Definition get_opt (v : value) (k : string) : value :=
  match v with
  | JObj props => lookup_prop k props
  | _ => JUndefined
  end.

(** [Object.keys] and [Object.values]. *)
Definition keys (props : list (string * value)) : list string := map fst props.

Definition values (v : value) : list value :=
  match v with
  | JObj props => map snd props
  | JArr es => es
  | _ => []
  end.

(** [a === b] where [b] is a primitive (a string taken from the URL, or
    [null]). Objects and arrays compare by identity, and a parsed object is
    never identical to a primitive. *)
Definition strict_eq (a b : value) : bool :=
  match a, b with
  | JUndefined, JUndefined => true
  | JNull, JNull => true
  | JBool x, JBool y => Bool.eqb x y
  | JNum x, JNum y => String.eqb x y
  | JStr x, JStr y => String.eqb x y
  | _, _ => false
  end.

(** *** Strings *)

Definition is_upper (c : ascii) : bool :=
  (65 <=? nat_of_ascii c) && (nat_of_ascii c <=? 90).

Definition lower_char (c : ascii) : ascii :=
  if is_upper c then ascii_of_nat (nat_of_ascii c + 32) else c.

(** [s.toLowerCase()]. *)
Fixpoint toLowerCase (s : string) : string :=
  match s with
  | EmptyString => EmptyString
  | String c s' => String (lower_char c) (toLowerCase s')
  end.

(** [hay.includes(needle)]. *)
Fixpoint includes (hay needle : string) : bool :=
  if String.prefix needle hay then true
  else match hay with
       | EmptyString => false
       | String _ hay' => includes hay' needle
       end.

(** White space removed by [trim]: TAB, LF, VT, FF, CR and SPACE. *)
Definition is_space (c : ascii) : bool :=
  let n := nat_of_ascii c in
  ((9 <=? n) && (n <=? 13)) || (n =? 32).

Fixpoint trimStart (s : string) : string :=
  match s with
  | EmptyString => EmptyString
  | String c s' => if is_space c then trimStart s' else s
  end.

Fixpoint trimEnd (s : string) : string :=
  match s with
  | EmptyString => EmptyString
  | String c s' =>
      match trimEnd s' with
      | EmptyString => if is_space c then EmptyString else String c EmptyString
      | t => String c t
      end
  end.

(** [s.trim()]. *)
Definition trim (s : string) : string := trimEnd (trimStart s).

(** [s.split(sep)] for a one-character separator. *)
Fixpoint split (sep : ascii) (s : string) : list string :=
  match s with
  | EmptyString => [EmptyString]
  | String c s' =>
      if Ascii.eqb c sep then EmptyString :: split sep s'
      else match split sep s' with
           | [] => [String c EmptyString]
           | piece :: pieces => String c piece :: pieces
           end
  end.

(** *** Surrogates *)

(** A JavaScript string is a sequence of UTF-16 code units, and a parsed
    string may hold a surrogate with no partner. A surrogate pair is carried
    by the four bytes of its code point, so the three-byte form
    [ED A0..BF 80..BF] is a surrogate that stands alone. *)
Definition is_surrogate_lead (c c' : ascii) : bool :=
  (nat_of_ascii c =? 237) && (160 <=? nat_of_ascii c') && (nat_of_ascii c' <=? 191).

Fixpoint has_lone_surrogate (s : string) : bool :=
  match s with
  | EmptyString => false
  | String c s' =>
      match s' with
      | String c' (String _ _) => is_surrogate_lead c c' || has_lone_surrogate s'
      | _ => has_lone_surrogate s'
      end
  end.

(** The code unit that the three bytes carry. *)
Definition surrogate_unit (c c' c'' : ascii) : nat :=
  (nat_of_ascii c mod 16) * 4096 + (nat_of_ascii c' mod 64) * 64
  + nat_of_ascii c'' mod 64.

End JS.

Import JS.

(** ** The data model *)

(** A phone record is a JSON object; a dataset is an ordered sequence of
    records. *)
Definition record : Type := list (string * value).
Definition dataset : Type := list record.

(** ** The page *)

(** A [script] element: its [type], its [data-product-schema] attribute and
    its text. *)
Record script_el : Type := mkScript {
  script_type : string;
  data_product_schema : option string;
  script_text : string
}.

(** The [#error-message] element: [textContent] and [style.display]. *)
Record message_el : Type := mkMessage {
  textContent : string;
  display : string
}.

Record document : Type := mkDocument {
  (** [window.location.href] *)
  href : string;
  (** [new URLSearchParams(window.location.search).get('ids')]; [None] is [null] *)
  query_ids : option string;
  (** the [data-ids] attribute of the first element that carries one *)
  data_ids : option string;
  (** text of the [title] element *)
  title : option string;
  (** [content] of [meta[name="description"]] *)
  meta_description : option string;
  (** text of [#page-title] *)
  page_title : option string;
  (** [innerHTML] of [#header-row] and of [#table-body]: the markup of the
      page at first, then the markup last assigned *)
  header_row : option string;
  table_body : option string;
  error_message : option message_el;
  (** the [script] elements of the document, in document order *)
  scripts : list script_el
}.

Definition set_title (t : string) (d : document) : document :=
  mkDocument (href d) (query_ids d) (data_ids d) (Some t) (meta_description d)
    (page_title d) (header_row d) (table_body d) (error_message d) (scripts d).

Definition set_meta_description (t : string) (d : document) : document :=
  mkDocument (href d) (query_ids d) (data_ids d) (title d) (Some t)
    (page_title d) (header_row d) (table_body d) (error_message d) (scripts d).

Definition set_page_title (t : string) (d : document) : document :=
  mkDocument (href d) (query_ids d) (data_ids d) (title d) (meta_description d)
    (Some t) (header_row d) (table_body d) (error_message d) (scripts d).

Definition set_header_row (h : string) (d : document) : document :=
  mkDocument (href d) (query_ids d) (data_ids d) (title d) (meta_description d)
    (page_title d) (Some h) (table_body d) (error_message d) (scripts d).

Definition set_table_body (h : string) (d : document) : document :=
  mkDocument (href d) (query_ids d) (data_ids d) (title d) (meta_description d)
    (page_title d) (header_row d) (Some h) (error_message d) (scripts d).

Definition set_error_message (m : message_el) (d : document) : document :=
  mkDocument (href d) (query_ids d) (data_ids d) (title d) (meta_description d)
    (page_title d) (header_row d) (table_body d) (Some m) (scripts d).

(** [document.head.appendChild(script)] *)
Definition append_script (s : script_el) (d : document) : document :=
  mkDocument (href d) (query_ids d) (data_ids d) (title d) (meta_description d)
    (page_title d) (header_row d) (table_body d) (error_message d)
    (scripts d ++ [s]).

(** ** Identifier sources ([site.js], lines 24-46) *)

(** [ids ? ids.split(',').map(id => id.trim()) : []] *)
Definition split_ids (ids : option string) : list string :=
  match ids with
  | None => []
  | Some s => if String.eqb s "" then [] else map trim (split "," s)
  end.

Definition getQueryParams (d : document) : list string :=
  split_ids (query_ids d).

Definition getComparisonIds (d : document) : list string :=
  match data_ids d with
  | Some dataIds => split_ids (Some dataIds)
  | None => getQueryParams d
  end.

(** ** [JSON.stringify] *)

Definition dq : string := String "034"%char EmptyString.

Definition hex_digit (n : nat) : ascii :=
  if n <? 10 then ascii_of_nat (48 + n) else ascii_of_nat (87 + n).

(** One character of a JSON string literal: the quote and the backslash are
    escaped, control characters use the short escapes or [\u00XX]. *)
Definition escape_char (c : ascii) : string :=
  let n := nat_of_ascii c in
  if n =? 34 then "\" +:+ dq
  else if n =? 92 then "\\"
  else if n =? 8 then "\b"
  else if n =? 9 then "\t"
  else if n =? 10 then "\n"
  else if n =? 12 then "\f"
  else if n =? 13 then "\r"
  else if n <? 32 then
    "\u00" +:+ String (hex_digit (n / 16)) (String (hex_digit (n mod 16)) EmptyString)
  else String c EmptyString.

(** [\uXXXX] with lower-case digits. *)
Definition unicode_escape (n : nat) : string :=
  "\u" +:+ String (hex_digit (n / 4096)) (String (hex_digit ((n / 256) mod 16))
             (String (hex_digit ((n / 16) mod 16)) (String (hex_digit (n mod 16)) EmptyString))).

(** The characters of a JSON string literal; a lone surrogate is written as
    its [\uXXXX] escape. *)
Fixpoint escape (s : string) : string :=
  match s with
  | EmptyString => EmptyString
  | String c s' =>
      match s' with
      | String c' (String c'' rest) =>
          if is_surrogate_lead c c'
          then unicode_escape (surrogate_unit c c' c'') +:+ escape rest
          else escape_char c +:+ escape s'
      | _ => escape_char c +:+ escape s'
      end
  end.

Definition quote (s : string) : string := dq +:+ escape s +:+ dq.

(** [JSON.stringify(v)] without indentation. A property whose value is
    [undefined] is left out; an [undefined] array element prints as [null]. *)
Fixpoint stringify (v : value) : string :=
  match v with
  | JUndefined | JNull => "null"
  | JBool true => "true"
  | JBool false => "false"
  | JNum r => r
  | JStr s => quote s
  | JArr es => "[" +:+ join "," (map stringify es) +:+ "]"
  | JObj props =>
      "{" +:+
      join ","
        ((fix members (ps : list (string * value)) : list string :=
            match ps with
            | [] => []
            | (k, JUndefined) :: rest => members rest
            | (k, x) :: rest => (quote k +:+ ":" +:+ stringify x) :: members rest
            end) props)
      +:+ "}"
  end.

(** ** Structured data ([site.js], lines 86-138) *)

(** The template literal [`${phone.brand} ${phone.model}`]. *)
Definition display_name (p : record) : string :=
  ToString (lookup_prop "brand" p) +:+ " " +:+ ToString (lookup_prop "model" p).

Definition product_schema (phone : record) : value :=
  JObj [ ("@type", JStr "Product");
         ("name", JStr (display_name phone));
         ("brand", JObj [ ("@type", JStr "Brand");
                          ("name", lookup_prop "brand" phone) ]);
         ("model", lookup_prop "model" phone);
         ("releaseDate", JStr (ToString (lookup_prop "release_year" phone)));
         ("specs", JObj [ ("@type", JStr "PropertyValue");
                          ("name", JStr "Technical Specifications");
                          ("description", JStr "Official manufacturer specifications") ]) ].

Definition comparisonSchema (selectedPhones : list record) (d : document) : value :=
  JObj [ ("@context", JStr "https://schema.org");
         ("@type", JStr "Dataset");
         ("name", JStr (join " vs " (map display_name selectedPhones)));
         ("description",
           JStr ("Detailed specification comparison between "
                 +:+ join " and " (map display_name selectedPhones)
                 +:+ ". All specifications sourced from official manufacturer documentation."));
         ("url", JStr (href d));
         ("isBasedOn", JStr "Official manufacturer product specifications");
         ("hasPart", JArr (map product_schema selectedPhones)) ].

(** [script[data-product-schema="true"]] *)
Definition is_product_schema (s : script_el) : bool :=
  match data_product_schema s with
  | Some v => String.eqb v "true"
  | None => false
  end.

(** The function returns at once on an empty list; otherwise it builds the
    schema and appends a script only when [querySelector] finds no script
    with [data-product-schema="true"]. (The first [querySelector] of the
    source, for a script without that attribute, only feeds a local variable
    that is never read.) Nothing in the [try] block can throw on records. *)
Definition addStructuredData (selectedPhones : list record) (d : document) : document :=
  if length selectedPhones =? 0 then d
  else
    match List.find is_product_schema (scripts d) with
    | Some _ => d
    | None =>
        append_script
          (mkScript "application/ld+json" (Some "true")
             (stringify (comparisonSchema selectedPhones d))) d
    end.

(** ** Value flattening ([site.js], lines 161-169) *)

Definition dash : string := "—".

Definition flattenValue (v : value) : string :=
  match v with
  | JNull | JUndefined => dash
  | JObj _ | JArr _ => array_join " / " (List.filter truthy (values v))
  | _ => ToString v
  end.

(** ** Page metadata ([site.js], lines 172-198) *)

Definition updatePageMeta (selectedPhones : list record) (d : document) : document :=
  if length selectedPhones =? 0 then d
  else
    let models := join " vs " (map display_name selectedPhones) in
    let d1 := match title d with
              | Some _ => set_title (models +:+ " – Specs Comparison – SpecLedger") d
              | None => d
              end in
    let d2 := match meta_description d1 with
              | Some _ =>
                  set_meta_description
                    ("Compare " +:+ models +:+
                     " side-by-side using official manufacturer specifications. SpecLedger provides specification-based product comparisons.")
                    d1
              | None => d1
              end in
    match page_title d2 with
    | Some _ => set_page_title models d2
    | None => d2
    end.

(** ** The record resolver ([site.js], lines 218-220) *)

(** [p.id === id] *)
Definition has_id (id : string) (p : record) : bool :=
  strict_eq (lookup_prop "id" p) (JStr id).

(** [phones.find(p => p.id === id)]; [None] is [undefined]. *)
Definition find_phone (phones : dataset) (id : string) : option record :=
  List.find (has_id id) phones.

(** [selectedIds.map(id => phones.find(...)).filter(p => p !== undefined)] *)
Definition resolve (selectedIds : list string) (phones : dataset) : list record :=
  omap (fun found : option record => found) (map (find_phone phones) selectedIds).

(** ** The comparison table ([site.js], lines 201-298) *)

Definition specOrder : list string :=
  [ "brand"; "model"; "release_year";
    "display"; "chipset"; "ram_gb"; "storage_gb";
    "battery_mah"; "camera"; "os" ].

Definition specLabels : gmap string string :=
  list_to_map
    [ ("brand", "Brand"); ("model", "Model"); ("release_year", "Release Year");
      ("display", "Display"); ("chipset", "Chipset"); ("ram_gb", "RAM");
      ("storage_gb", "Storage"); ("battery_mah", "Battery");
      ("camera", "Camera"); ("os", "Operating System") ].

(** [specLabels[spec] || spec], read for the fields of [specOrder] only. *)
Definition spec_label (spec : string) : string :=
  match specLabels !! spec with
  | Some l => if String.eqb l "" then spec else l
  | None => spec
  end.

(** The [Set] filled by the two nested [forEach] loops. *)
Definition add_keys (acc : gset string) (phone : record) : gset string :=
  foldl (fun (acc : gset string) (key : string) =>
           if negb (String.eqb key "id") && negb (String.eqb key "source_url")
           then {[ key ]} ∪ acc
           else acc)
        acc (keys phone).

Definition allSpecs (selectedPhones : list record) : gset string :=
  foldl add_keys ∅ selectedPhones.

(** [specOrder.filter(spec => allSpecs.has(spec))] *)
Definition displayed_specs (selectedPhones : list record) : list string :=
  List.filter (fun spec => bool_decide (spec ∈ allSpecs selectedPhones)) specOrder.

Definition spec_label_class : string := "class=" +:+ dq +:+ "spec-label" +:+ dq.

Definition spec_row (selectedPhones : list record) (spec : string) : string :=
  let label := spec_label spec in
  let cells :=
    join "" (map (fun phone => "<td>" +:+ flattenValue (lookup_prop spec phone) +:+ "</td>")
                 selectedPhones) in
  "<tr><th " +:+ spec_label_class +:+ ">" +:+ label +:+ "</th>" +:+ cells +:+ "</tr>".

(** The array of rows before the final [join('')]. *)
Definition spec_rows (selectedPhones : list record) : list string :=
  map (spec_row selectedPhones) (displayed_specs selectedPhones).

Definition header_html (selectedPhones : list record) : string :=
  "<th " +:+ spec_label_class +:+ ">Specification</th>" +:+
  join "" (map (fun phone =>
                  "<th class=" +:+ dq +:+ "phone-header" +:+ dq +:+ ">" +:+
                  ToString (lookup_prop "brand" phone) +:+ "<br><strong>" +:+
                  ToString (lookup_prop "model" phone) +:+ "</strong></th>")
               selectedPhones).

Definition sourceRow (selectedPhones : list record) : string :=
  "<tr><th " +:+ spec_label_class +:+ ">Source</th>" +:+
  join "" (map (fun phone =>
                  "<td><a href=" +:+ dq +:+ ToString (lookup_prop "source_url" phone) +:+ dq +:+
                  " target=" +:+ dq +:+ "_blank" +:+ dq +:+
                  " rel=" +:+ dq +:+ "noopener" +:+ dq +:+ ">View Specs</a></td>")
               selectedPhones) +:+
  "</tr>".

Definition placeholder_row (msg : string) : string :=
  "<tr><td " +:+ spec_label_class +:+ ">" +:+ msg +:+ "</td></tr>".

Definition select_placeholder : string :=
  placeholder_row
    "Select phones to compare using URL parameters (e.g., ?ids=google-pixel-10,google-pixel-10-pro)".

Definition not_found_placeholder : string :=
  placeholder_row "No phones found with provided IDs.".

Definition not_found_message : string :=
  "No valid phone IDs found. Check the available phones list below.".

(** How a call ends: it returns, or an exception leaves it (for the [async]
    function, a rejected promise). Either way the document is what the call
    made of it. *)
Inductive completion (A : Type) : Type :=
  | Returned (a : A)
  | Thrown (a : A).

Arguments Returned {A} a.
Arguments Thrown {A} a.

Definition final {A} (c : completion A) : A :=
  match c with Returned a | Thrown a => a end.

(** A write to a property of [errorMessage]: a [TypeError] when
    [getElementById('error-message')] gave [null]. *)
Definition with_error_message (f : message_el -> message_el) (d : document)
  : completion document :=
  match error_message d with
  | Some m => Returned (set_error_message (f m) d)
  | None => Thrown d
  end.

Definition set_text (t : string) (m : message_el) : message_el := mkMessage t (display m).
Definition set_display (v : string) (m : message_el) : message_el := mkMessage (textContent m) v.

(** [try { body } catch (error) { handler }] *)
Definition try_catch {A} (body : completion A) (handler : A -> completion A)
  : completion A :=
  match body with
  | Returned a => Returned a
  | Thrown a => handler a
  end.

(** Sequencing: what follows a statement runs only when it returned. *)
Definition bind {A} (c : completion A) (k : A -> completion A) : completion A :=
  match c with
  | Returned a => k a
  | Thrown a => Thrown a
  end.

(** The [catch] block of [generateComparisonTable]. *)
Definition on_error (d : document) : completion document :=
  bind (with_error_message (set_text "Error loading comparison data. Please try again.") d) (fun d1 =>
  bind (with_error_message (set_display "block") d1) (fun d2 =>
  Returned (set_table_body (placeholder_row "Error loading data.") d2))).

Section Table.

(** What [tableBody.innerHTML] reads after [markup] was assigned to it. The
    browser parses the markup into the nodes of the table body, and the getter
    serialises these nodes: the string read is not in general the string
    assigned (a bare [&] in a cell is read as [&amp;]). Parser and serialiser
    are the host's. *)
Variable read_back : string -> string.

(** [phones] is what [await fetchPhonesData()] gave: the dataset, or the empty
    array when the fetch failed. [innerHTML] is kept as the markup that was
    last assigned to it; [tableBody.innerHTML += sourceRow] reads the rows
    back from the browser and assigns what it read followed by the source
    row. *)
Definition generateComparisonTable (phones : dataset) (d : document)
  : completion document :=
  let selectedIds := getComparisonIds d in
  match header_row d, table_body d with
  | Some _, Some _ =>
      try_catch
        (if length selectedIds =? 0 then
           Returned (set_table_body select_placeholder d)
         else
           let selectedPhones := resolve selectedIds phones in
           if length selectedPhones =? 0 then
             bind (with_error_message (set_text not_found_message) d) (fun d1 =>
             bind (with_error_message (set_display "block") d1) (fun d2 =>
             Returned (set_table_body not_found_placeholder d2)))
           else
             let d1 := updatePageMeta selectedPhones d in
             let d2 := addStructuredData selectedPhones d1 in
             let d3 := set_header_row (header_html selectedPhones) d2 in
             let d4 := set_table_body (join "" (spec_rows selectedPhones)) d3 in
             let d5 := set_table_body (read_back (default "" (table_body d4))
                                       +:+ sourceRow selectedPhones) d4 in
             with_error_message (set_display "none") d5)
        on_error
  | _, _ => Returned d
  end.

End Table.

(** ** The dataset loader ([part_000], lines 11-15 and 50-66) *)

(** What a [fetch] of one URL meets: a network failure (the promise rejects),
    or a response with its [ok] flag and its body, [None] when the body is not
    JSON ([res.json()] rejects). *)
Inductive response : Type :=
  | NetworkError
  | Http (ok : bool) (body : option value).

Definition server : Type := string -> response.

(** [fetchJSON(url)]; [None] when it throws. *)
Definition fetchJSON (srv : server) (url : string) : option value :=
  match srv url with
  | NetworkError => None
  | Http false _ => None
  | Http true body => body
  end.

Definition paths : list string :=
  [ "/spec-ledger/data/phones.json";
    "/spec-ledger/data/phones.example.json";
    "/data/phones.json";
    "/data/phones.example.json" ].

Definition no_dataset : string := "No phone dataset found".

(** The [for] loop of [loadPhones] over the remaining candidates. [log] is the
    list of URLs fetched so far; the result is [None] when the loop runs out. *)
Fixpoint try_paths (srv : server) (candidates log : list string)
  : list string * option value :=
  match candidates with
  | [] => (log, None)
  | p :: rest =>
      match fetchJSON srv p with
      | Some data =>
          if truthy (get_opt data "items")
          then (log ++ [p], Some (get_opt data "items"))
          else try_paths srv rest (log ++ [p])
      | None => try_paths srv rest (log ++ [p])
      end
  end.

(** [loadPhones()]: the URLs it fetched, and either [data.items] or the
    message of the error it throws. *)
Definition loadPhones (srv : server) : list string * (value + string) :=
  match try_paths srv paths [] with
  | (log, Some items) => (log, inl items)
  | (log, None) => (log, inr no_dataset)
  end.

(** ** The index-page filter ([part_000], lines 17-19 and 82-116) *)

(** [(v ?? "").toString().toLowerCase()] *)
Definition text (v : value) : string :=
  toLowerCase (match v with
               | JUndefined | JNull => ""
               | _ => ToString v
               end).

(** [`${i.brand} ${i.model} ${i.id} ${i?.chipset?.name}`] *)
Definition search_text (i : record) : string :=
  ToString (lookup_prop "brand" i) +:+ " " +:+
  ToString (lookup_prop "model" i) +:+ " " +:+
  ToString (lookup_prop "id" i) +:+ " " +:+
  ToString (get_opt (lookup_prop "chipset" i) "name").

(** [matches(i)], with the values of the two controls [q] and [brand]. *)
Definition matches (q_value brand_value : string) (i : record) : bool :=
  if truthy (JStr brand_value)
     && negb (strict_eq (lookup_prop "brand" i) (JStr brand_value))
  then false
  else
    let query := text (JStr q_value) in
    if negb (truthy (JStr query)) then true
    else includes (text (JStr (search_text i))) query.

(** *** Cards ([part_000], lines 21-46 and 92-109) *)

(** A DOM node built by [el]. *)
Inductive node : Type :=
  | Text (s : string)
  | Elem (tag : string) (attrs : list (string * string)) (children : list node).

(** A child handed to [el]: a node, or a value. [el] wraps a string in a text
    node and hands anything else to [appendChild], which throws on a value
    that is not a node. *)
Inductive child : Type :=
  | ChildNode (n : node)
  | ChildValue (v : value).

Definition to_node (c : child) : option node :=
  match c with
  | ChildNode n => Some n
  | ChildValue (JStr s) => Some (Text s)
  | ChildValue _ => None
  end.

(** [el(tag, attrs, children)]; [None] when it throws. *)
Definition el (tag : string) (attrs : list (string * string)) (children : list child)
  : option node :=
  kids ← mapM to_node children; Some (Elem tag attrs kids).

Definition has_byte (n : nat) (l : list nat) : bool := existsb (Nat.eqb n) l.

(** Left as they are by [encodeURIComponent]: letters, digits, and the
    hyphen, underscore, dot, exclamation mark, tilde, asterisk, apostrophe and
    the two parentheses. *)
Definition is_unreserved (c : ascii) : bool :=
  let n := nat_of_ascii c in
  ((65 <=? n) && (n <=? 90)) || ((97 <=? n) && (n <=? 122))
  || ((48 <=? n) && (n <=? 57))
  || has_byte n [45; 95; 46; 33; 126; 42; 39; 40; 41].

Definition upper_hex_digit (n : nat) : ascii :=
  if n <? 10 then ascii_of_nat (48 + n) else ascii_of_nat (55 + n).

(** The bytes of the UTF-8 form, percent-encoded. *)
Fixpoint percent_encode (s : string) : string :=
  match s with
  | EmptyString => EmptyString
  | String c s' =>
      if is_unreserved c then String c (percent_encode s')
      else String "%" (String (upper_hex_digit (nat_of_ascii c / 16))
             (String (upper_hex_digit (nat_of_ascii c mod 16))
                (percent_encode s')))
  end.

(** [encodeURIComponent(s)]; [None] is the [URIError] it throws on a string
    with a lone surrogate. *)
Definition encodeURIComponent (s : string) : option string :=
  if has_lone_surrogate s then None else Some (percent_encode s).

(** The controls and mount points of the index page: the values of [#q] and
    [#brand], the text of [#count], the children of [#grid]. *)
Record page : Type := mkPage {
  q_value : string;
  brand_value : string;
  count_text : string;
  grid : list node
}.

(** The decimal form of a length, as a template literal prints it. *)
Definition decimal (n : nat) : string := NilEmpty.string_of_uint (Nat.to_uint n).

Section Cards.

(** The [Date] of the host: whether [new Date(iso)] is a valid date, and what
    [toLocaleDateString] prints for it. *)
Variable date_valid : value -> bool.
Variable toLocaleDateString : value -> string.

Definition formatDate (iso : value) : value :=
  if negb (truthy iso) then JStr dash
  else if date_valid iso then JStr (toLocaleDateString iso) else iso.

(** [x ?? "—"] *)
Definition or_dash (v : value) : value :=
  match v with
  | JUndefined | JNull => JStr dash
  | _ => v
  end.

Definition labelled (label : string) (v : value) : option node :=
  b ← el "b" [] [ChildValue (JStr label)];
  el "div" [] [ChildNode b; ChildValue v].

(** [card(i)]; [None] when building it throws. The attributes of the link
    are evaluated before its children. *)
Definition card (i : record) : option node :=
  let name := trim (display_name i) in
  let size_in := get_opt (lookup_prop "display" i) "size_in" in
  let mah := get_opt (lookup_prop "battery" i) "mah" in
  id ← encodeURIComponent (ToString (lookup_prop "id" i));
  h2 ← el "h2" [] [ChildValue (JStr name)];
  badge ← el "span" [("class", "badge")] [ChildValue (lookup_prop "brand" i)];
  heading ← el "div" [("class", "title")] [ChildNode h2; ChildNode badge];
  release ← labelled "Release: " (formatDate (lookup_prop "release_date" i));
  display ← labelled "Display: "
              (JStr (if truthy size_in then ToString size_in +:+ dq else dash));
  chipset ← labelled "Chipset: "
              (or_dash (get_opt (lookup_prop "chipset" i) "name"));
  battery ← labelled "Battery: "
              (JStr (if truthy mah then ToString mah +:+ " mAh" else dash));
  kv ← el "div" [("class", "kv")]
         [ChildNode release; ChildNode display; ChildNode chipset; ChildNode battery];
  el "a" [ ("class", "card"); ("href", "./phone.html?id=" +:+ id) ]
     [ChildNode heading; ChildNode kv].

(** [filtered.forEach(i => grid.appendChild(card(i)))] *)
Fixpoint append_cards (filtered : list record) (pg : page) : completion page :=
  match filtered with
  | [] => Returned pg
  | i :: rest =>
      match card i with
      | Some n =>
          append_cards rest
            (mkPage (q_value pg) (brand_value pg) (count_text pg) (grid pg ++ [n]))
      | None => Thrown pg
      end
  end.

(** [repaint()] *)
Definition repaint (items : dataset) (pg : page) : completion page :=
  let filtered := List.filter (matches (q_value pg) (brand_value pg)) items in
  append_cards filtered
    (mkPage (q_value pg) (brand_value pg)
       (decimal (length filtered) +:+ " phones") []).

End Cards.

(** *** The phone page ([part_000], lines 214-222) *)

(** [items.find(i => i.id === id)]; [id] is [null] when the URL has no [id]
    parameter. *)
Definition find_item (items : dataset) (id : option string) : option record :=
  List.find (fun i => strict_eq (lookup_prop "id" i)
                        (match id with Some s => JStr s | None => JNull end))
            items.

(** *** Page load ([part_000], lines 205-233) *)

Definition load_failed : string := "Failed to load data. Ensure data/phones.json exists.".

Section Boot.

(** What the handler runs on the loaded [items] is a parameter: [renderCompare]
    on the index page and the lookup and [renderPhone] on the phone page, each
    acting on the content of its page and possibly throwing. *)
Variable content : Type.
Variable renderCompare : value -> content -> completion content.
Variable renderPhonePage : value -> content -> completion content.

Record loaded_page : Type := mkLoaded {
  (** [document.documentElement.dataset.page] *)
  page_kind : option string;
  (** [#load-error]: its [hidden] flag and its text *)
  load_error : option (bool * string);
  body : content
}.

(** The [catch] block. *)
Definition show_load_error (pg : loaded_page) : loaded_page :=
  match load_error pg with
  | Some _ => mkLoaded (page_kind pg) (Some (false, load_failed)) (body pg)
  | None => pg
  end.

Definition run (render : content -> completion content) (pg : loaded_page) : loaded_page :=
  match render (body pg) with
  | Returned c => mkLoaded (page_kind pg) (load_error pg) c
  | Thrown c => show_load_error (mkLoaded (page_kind pg) (load_error pg) c)
  end.

(** The [DOMContentLoaded] handler: the URLs fetched and the page it leaves. *)
Definition on_DOMContentLoaded (srv : server) (pg : loaded_page)
  : list string * loaded_page :=
  match loadPhones srv with
  | (log, inl items) =>
      match page_kind pg with
      | Some kind =>
          if String.eqb kind "compare-index" then (log, run (renderCompare items) pg)
          else if String.eqb kind "phone" then (log, run (renderPhonePage items) pg)
          else (log, pg)
      | None => (log, pg)
      end
  | (log, inr _) => (log, show_load_error pg)
  end.

End Boot.

Arguments mkLoaded {content} _ _ _.
Arguments page_kind {content} _.
Arguments load_error {content} _.
Arguments body {content} _.

(** ** Statement-level vocabulary *)

(** What one candidate URL yields to the loop of [loadPhones]: the value of
    [data.items] when the fetch succeeds, the body is JSON and [data?.items]
    is truthy. *)
Definition candidate (srv : server) (url : string) : option value :=
  match fetchJSON srv url with
  | Some data =>
      if truthy (get_opt data "items") then Some (get_opt data "items") else None
  | None => None
  end.

Fixpoint all_space (s : string) : bool :=
  match s with
  | EmptyString => true
  | String c s' => is_space c && all_space s'
  end.

Fixpoint last_char (s : string) : option ascii :=
  match s with
  | EmptyString => None
  | String c EmptyString => Some c
  | String _ s' => last_char s'
  end.

Definition first_char (s : string) : option ascii :=
  match s with
  | EmptyString => None
  | String c _ => Some c
  end.

Fixpoint has_char (c : ascii) (s : string) : bool :=
  match s with
  | EmptyString => false
  | String c' s' => Ascii.eqb c c' || has_char c s'
  end.

(** The user types [q] into the search box; the [input] listener repaints. *)
Definition type_query (date_valid : value -> bool) (toLocaleDateString : value -> string)
  (q : string) (items : dataset) (pg : page) : completion page :=
  repaint date_valid toLocaleDateString items
    (mkPage q (brand_value pg) (count_text pg) (grid pg)).

(** The text of a field, an absent field contributing nothing. *)
Definition field_text (v : value) : string :=
  match v with
  | JUndefined | JNull => ""
  | _ => ToString v
  end.

(** The concatenation of brand, model, id and chipset name. *)
Definition concatenated_fields (i : record) : string :=
  field_text (lookup_prop "brand" i) +:+ field_text (lookup_prop "model" i) +:+
  field_text (lookup_prop "id" i) +:+
  field_text (get_opt (lookup_prop "chipset" i) "name").

(** The filter as the specification words it: the brand constraint is empty
    or equals the record's brand, and the query is empty or a case-insensitive
    substring of the concatenation of brand, model, id and chipset name. *)
Definition matches_as_specified (q brand : string) (i : record) : bool :=
  (String.eqb brand "" || strict_eq (lookup_prop "brand" i) (JStr brand))
  && (String.eqb q "" || includes (toLowerCase (concatenated_fields i)) (toLowerCase q)).

(** ** Scenarios of the specification, used as concrete inputs below *)

Module Scenario.

(** [{id:"a",brand:"Acme",model:"X1",chipset:{name:"Z1"}}] *)
Definition acme : record :=
  [ ("id", JStr "a"); ("brand", JStr "Acme"); ("model", JStr "X1");
    ("chipset", JObj [("name", JStr "Z1")]) ].

(** A record without a chipset, with a field outside the canonical order. *)
Definition bolt : record :=
  [ ("id", JStr "b"); ("brand", JStr "Bolt"); ("model", JStr "Y2");
    ("ram_gb", JNum "8"); ("colour", JStr "red");
    ("source_url", JStr "https://example.org/y2") ].

Definition phones : dataset := [acme; bolt].

(** A comparison page with all its mount points, opened with the given
    [ids] parameter and [data-ids] attribute. *)
Definition compare_page (ids attr : option string) : document :=
  mkDocument "https://example.org/compare.html" ids attr
    (Some "Compare") (Some "") (Some "") (Some "") (Some "")
    (Some (mkMessage "" "none")) [].

(** An index page with the given control values and an empty grid. *)
Definition index_page (q brand : string) : page := mkPage q brand "" [].

(** A page of kind [kind] that has the load-error element, hidden. *)
Definition loading_page (kind : string) : loaded_page unit :=
  mkLoaded (Some kind) (Some (true, "")) tt.

(** A browser that reads back the markup it was given, as one does on the
    rows of the records above, in which nothing needs repair or escaping. *)
Definition as_assigned : string -> string := fun markup => markup.

(** A server on which every candidate path answers with [r]. *)
Definition always (r : response) : server := fun _ => r.

End Scenario.

(** ** Proof automation *)

(** Closes a goal in which [H] relates the presence of an element before and
    after a render, and one side has the element while the other lacks it. *)
Ltac no_element H :=
  let x := fresh in
  let E := fresh in
  assert (is_Some (@None string)) as [x E];
  [apply H; by eexists | discriminate E].

(** ** The comparison table on the raw response ([site.js], lines 10-21 and
       201-298) *)

(** [fetchPhonesData()]: the parsed body, or the empty array when the fetch
    fails, the status is not a success or the body is not JSON. It never
    throws. *)
Definition fetchPhonesData (srv : server) : value :=
  match srv "../data/phones.json" with
  | Http true (Some data) => data
  | _ => JArr []
  end.

(** [phones.find(p => p.id === id)] over the elements of an array: reading
    [p.id] throws on [null] (the outer [None]); a primitive or a nested array
    has no [id]. *)
Fixpoint find_in_json (es : list value) (id : string) : option (option record) :=
  match es with
  | [] => Some None
  | p :: rest =>
      match p with
      | JNull | JUndefined => None
      | JObj props => if has_id id props then Some (Some props) else find_in_json rest id
      | _ => find_in_json rest id
      end
  end.

(** A value that is not an array has no [find] method: the call throws. *)
Definition find_json (phones : value) (id : string) : option (option record) :=
  match phones with
  | JArr es => find_in_json es id
  | _ => None
  end.

(** [selectedIds.map(...).filter(...)]; [None] when some [find] throws. *)
Definition resolve_json (selectedIds : list string) (phones : value)
  : option (list record) :=
  found ← mapM (find_json phones) selectedIds;
  Some (omap (fun p : option record => p) found).

Section TableOnResponse.

(** What [tableBody.innerHTML] reads after markup was assigned to it. *)
Variable read_back : string -> string.

(** [generateComparisonTable] with [phones] as [fetchPhonesData] returns it. *)
Definition generateComparisonTable_json (phones : value) (d : document)
  : completion document :=
  let selectedIds := getComparisonIds d in
  match header_row d, table_body d with
  | Some _, Some _ =>
      try_catch
        (if length selectedIds =? 0 then
           Returned (set_table_body select_placeholder d)
         else
           match resolve_json selectedIds phones with
           | None => Thrown d
           | Some selectedPhones =>
               if length selectedPhones =? 0 then
                 bind (with_error_message (set_text not_found_message) d) (fun d1 =>
                 bind (with_error_message (set_display "block") d1) (fun d2 =>
                 Returned (set_table_body not_found_placeholder d2)))
               else
                 let d1 := updatePageMeta selectedPhones d in
                 let d2 := addStructuredData selectedPhones d1 in
                 let d3 := set_header_row (header_html selectedPhones) d2 in
                 let d4 := set_table_body (join "" (spec_rows selectedPhones)) d3 in
                 let d5 := set_table_body (read_back (default "" (table_body d4))
                                           +:+ sourceRow selectedPhones) d4 in
                 with_error_message (set_display "none") d5
           end)
        on_error
  | _, _ => Returned d
  end.

(** The page load of a comparison page: fetch, then render. *)
Definition load_comparison (srv : server) (d : document) : completion document :=
  generateComparisonTable_json (fetchPhonesData srv) d.

End TableOnResponse.

(** ** The first revision of the table ([part_002], lines 80-171) *)

Section FirstTable.

(** What [tableBody.innerHTML] reads after markup was assigned to it. *)
Variable read_back : string -> string.

(** It reads the identifiers from the URL only and writes neither the page
    metadata nor the structured data. *)
Definition generateComparisonTable_v1 (phones : dataset) (d : document)
  : completion document :=
  let selectedIds := getQueryParams d in
  match header_row d, table_body d with
  | Some _, Some _ =>
      try_catch
        (if length selectedIds =? 0 then
           Returned (set_table_body select_placeholder d)
         else
           let selectedPhones := resolve selectedIds phones in
           if length selectedPhones =? 0 then
             bind (with_error_message (set_text not_found_message) d) (fun d1 =>
             bind (with_error_message (set_display "block") d1) (fun d2 =>
             Returned (set_table_body not_found_placeholder d2)))
           else
             let d3 := set_header_row (header_html selectedPhones) d in
             let d4 := set_table_body (join "" (spec_rows selectedPhones)) d3 in
             let d5 := set_table_body (read_back (default "" (table_body d4))
                                       +:+ sourceRow selectedPhones) d4 in
             with_error_message (set_display "none") d5)
        on_error
  | _, _ => Returned d
  end.

End FirstTable.

(** ** The list of available phones ([site.js], lines 141-158) *)






(** ** Robots and canonical tags ([site.js], lines 31-33 and 49-83) *)

(** A [meta] or [link] element: its local name and its attributes. *)
Record head_el : Type := mkEl {
  el_tag : string;
  el_attrs : list (string * string)
}.

(** What the two functions read and write: the location, whether an element
    carries [data-ids], and the [meta] and [link] elements of the document. *)
Record seo_page : Type := mkSeo {
  search : string;
  origin : string;
  pathname : string;
  has_data_ids : bool;
  head_els : list head_el
}.

Fixpoint getAttribute (k : string) (attrs : list (string * string)) : option string :=
  match attrs with
  | [] => None
  | (k', v) :: rest => if String.eqb k k' then Some v else getAttribute k rest
  end.

Fixpoint setAttribute (k v : string) (attrs : list (string * string))
  : list (string * string) :=
  match attrs with
  | [] => [(k, v)]
  | (k', v') :: rest =>
      if String.eqb k k' then (k, v) :: rest else (k', v') :: setAttribute k v rest
  end.

(** [meta[name="robots"]]: the value of [name] is compared as it is. *)
Definition is_robots (e : head_el) : bool :=
  String.eqb (el_tag e) "meta"
  && match getAttribute "name" (el_attrs e) with
     | Some v => String.eqb v "robots"
     | None => false
     end.

(** [link[rel="canonical"]]: the value of [rel] is compared without regard to
    ASCII case. *)
Definition is_canonical (e : head_el) : bool :=
  String.eqb (el_tag e) "link"
  && match getAttribute "rel" (el_attrs e) with
     | Some v => String.eqb (toLowerCase v) "canonical"
     | None => false
     end.

(** [setAttribute] on the element that [querySelector] returned: the first
    that passes the test. *)
Fixpoint update_first (test : head_el -> bool) (k v : string) (els : list head_el)
  : list head_el :=
  match els with
  | [] => []
  | e :: rest =>
      if test e then mkEl (el_tag e) (setAttribute k v (el_attrs e)) :: rest
      else e :: update_first test k v rest
  end.

Definition hasQueryParams (p : seo_page) : bool := 0 <? String.length (search p).

Definition isProgrammaticPage (p : seo_page) : bool := has_data_ids p.

Definition with_head (els : list head_el) (p : seo_page) : seo_page :=
  mkSeo (search p) (origin p) (pathname p) (has_data_ids p) els.

(** The element is created and appended to the head when the query finds
    none; then the attribute is set on the element found or created. *)
Definition ensure_and_set (test : head_el -> bool) (fresh : head_el) (k v : string)
  (els : list head_el) : list head_el :=
  update_first test k v (if existsb test els then els else els ++ [fresh]).

Definition setRobotsMeta (p : seo_page) : seo_page :=
  if hasQueryParams p && negb (isProgrammaticPage p) then
    with_head (ensure_and_set is_robots (mkEl "meta" [("name", "robots")])
                 "content" "noindex, follow" (head_els p)) p
  else p.

Definition setCanonicalUrl (p : seo_page) : seo_page :=
  with_head (ensure_and_set is_canonical (mkEl "link" [("rel", "canonical")])
               "href" (origin p +:+ pathname p) (head_els p)) p.

(** ** The comparison builder ([part_001], lines 211-291) *)

(** The two selectors with their values, the compare button with its
    [disabled] flag, and the error box; [None] for an element the page
    lacks. *)
Record builder : Type := mkBuilder {
  select1 : option string;
  select2 : option string;
  compare_disabled : option bool;
  builder_error : option message_el
}.

Definition hide_error (e : option message_el) : option message_el :=
  match e with
  | Some m => Some (set_display "none" m)
  | None => None
  end.

Definition show_error (t : string) (e : option message_el) : option message_el :=
  match e with
  | Some m => Some (mkMessage t "block")
  | None => None
  end.

Definition same_phone : string := "Please select different phones to compare.".

Definition validatePhoneSelection (b : builder) : builder :=
  match select1 b, select2 b, compare_disabled b with
  | Some val1, Some val2, Some _ =>
      let err := hide_error (builder_error b) in
      if truthy (JStr val1) && truthy (JStr val2) then
        if String.eqb val1 val2 then
          mkBuilder (select1 b) (select2 b) (Some true) (show_error same_phone err)
        else mkBuilder (select1 b) (select2 b) (Some false) err
      else mkBuilder (select1 b) (select2 b) (Some true) err
  | _, _, _ => b
  end.

(** The click listener of the compare button: the builder it leaves, and the
    URL it pushes before it renders the table, [None] when it returns
    early. *)
Definition on_compare_click (b : builder) : builder * option string :=
  match select1 b, select2 b with
  | Some val1, Some val2 =>
      if negb (truthy (JStr val1)) || negb (truthy (JStr val2)) then
        (mkBuilder (select1 b) (select2 b) (compare_disabled b)
           (show_error "Please select both phones." (builder_error b)), None)
      else if String.eqb val1 val2 then
        (mkBuilder (select1 b) (select2 b) (compare_disabled b)
           (show_error same_phone (builder_error b)), None)
      else
        (mkBuilder (select1 b) (select2 b) (compare_disabled b)
           (hide_error (builder_error b)),
         Some ("?ids=" +:+ val1 +:+ "," +:+ val2))
  | _, _ => (b, None)
  end.

(** ** The brand selector of the index page ([part_000], lines 31-33 and
       70-121) *)

(** Membership in a [Set]: primitives by value, objects by identity, and two
    parsed objects are never the same object. *)
Definition in_set (v : value) (seen : list value) : bool :=
  existsb (strict_eq v) seen.

(** [[...new Set(arr)]]: first occurrences, in order. *)
Fixpoint set_of (seen arr : list value) : list value :=
  match arr with
  | [] => []
  | v :: rest =>
      if in_set v seen then set_of seen rest else v :: set_of (v :: seen) rest
  end.

(** [uniq(arr)] *)
Definition uniq (arr : list value) : list value :=
  List.filter truthy (set_of [] arr).

(** [arr.sort()]: a stable sort on the string forms, compared byte by byte
    (the order of code units on the ASCII range). *)
Fixpoint sort_insert (x : value) (sorted : list value) : list value :=
  match sorted with
  | [] => [x]
  | y :: rest =>
      if String.ltb (ToString y) (ToString x) then y :: sort_insert x rest
      else x :: y :: rest
  end.

Definition sort (arr : list value) : list value := foldr sort_insert [] arr.

(** The selector and the rest of the index page. An option is its [value]
    attribute and its text. *)
Record index_controls : Type := mkControls {
  brand_options : list (string * string);
  controls_page : page
}.

(** [brands.forEach(b => brand.appendChild(el("option", { value: b }, [b])))]:
    [el] throws on a brand that is not a string. *)
Fixpoint append_options (brands : list value) (c : index_controls)
  : completion index_controls :=
  match brands with
  | [] => Returned c
  | JStr b :: rest =>
      append_options rest (mkControls (brand_options c ++ [(b, b)]) (controls_page c))
  | _ :: _ => Thrown c
  end.

Section RenderCompare.

Variable date_valid : value -> bool.
Variable toLocaleDateString : value -> string.

(** [renderCompare(items)]. Writing the first option into the selector leaves
    it selected, so the value of the selector is empty when [repaint] runs. *)
Definition renderCompare (items : dataset) (c : index_controls)
  : completion index_controls :=
  let brands := sort (uniq (map (lookup_prop "brand") items)) in
  let pg := controls_page c in
  let c0 := mkControls [("", "All brands")]
              (mkPage (q_value pg) "" (count_text pg) (grid pg)) in
  match append_options brands c0 with
  | Thrown c1 => Thrown c1
  | Returned c1 =>
      match repaint date_valid toLocaleDateString items (controls_page c1) with
      | Returned pg1 => Returned (mkControls (brand_options c1) pg1)
      | Thrown pg1 => Thrown (mkControls (brand_options c1) pg1)
      end
  end.

End RenderCompare.

(** ** More statement-level vocabulary *)

(** The number of occurrences of a character in a string. *)
Fixpoint count_char (c : ascii) (s : string) : nat :=
  match s with
  | EmptyString => 0
  | String c' s' => (if Ascii.eqb c' c then 1 else 0) + count_char c s'
  end.

(** [typeof v === "string"] *)
Definition is_string (v : value) : bool :=
  match v with
  | JStr _ => true
  | _ => false
  end.

(** The string a value is, when it is one. *)
Definition as_string (v : value) : option string :=
  match v with
  | JStr s => Some s
  | _ => None
  end.

(** The order of [sort]: [a] may stand before [b]. *)
Definition sort_le (a b : value) : Prop := String.ltb (ToString b) (ToString a) = false.

(** The document that a render of the resolved records [sel] leaves, before
    the error box is hidden: metadata of the elements the page has, the
    product-schema script unless one was there, header and body of the
    table, the body being the rows as the browser reads them back, followed
    by the source row. *)
Definition rendered (read_back : string -> string) (sel : list record) (d : document)
  : document :=
  mkDocument (href d) (query_ids d) (data_ids d)
    (match title d with
     | Some _ => Some (join " vs " (map display_name sel) +:+ " – Specs Comparison – SpecLedger")
     | None => None
     end)
    (match meta_description d with
     | Some _ =>
         Some ("Compare " +:+ join " vs " (map display_name sel) +:+
               " side-by-side using official manufacturer specifications. SpecLedger provides specification-based product comparisons.")
     | None => None
     end)
    (match page_title d with
     | Some _ => Some (join " vs " (map display_name sel))
     | None => None
     end)
    (Some (header_html sel))
    (Some (read_back (join "" (spec_rows sel)) +:+ sourceRow sel))
    (error_message d)
    (match List.find is_product_schema (scripts d) with
     | Some _ => scripts d
     | None => scripts d ++ [mkScript "application/ld+json" (Some "true")
                               (stringify (comparisonSchema sel d))]
     end).

(** ** The phone page ([part_000], lines 125-201) *)












Section PhonePage.

Variable date_valid : value -> bool.
Variable toLocaleDateString : value -> string.




End PhonePage.

(** * Properties *)

#[local] Set Warnings "-clear-no-such-hyp".

(** ** Resolver *)

Section Resolver.

Implicit Types (L : list string) (D : dataset) (i j : string) (r : record).

Lemma resolve_nil D : resolve [] D = [].
Proof. reflexivity. Qed.

Lemma resolve_cons i L D :
  resolve (i :: L) D =
  match find_phone D i with
  | Some r => r :: resolve L D
  | None => resolve L D
  end.
Proof. unfold resolve. simpl. destruct (find_phone D i); reflexivity. Qed.

Lemma has_id_true i r : has_id i r = true <-> lookup_prop "id" r = JStr i.
Proof.
  unfold has_id, strict_eq. destruct (lookup_prop "id" r); split; try discriminate.
  - intros H. apply String.eqb_eq in H. by subst.
  - intros [= ->]. apply String.eqb_refl.
Qed.

Lemma has_id_unique i j r : has_id i r = true -> has_id j r = true -> i = j.
Proof.
  rewrite !has_id_true. intros -> [= ->]. reflexivity.
Qed.

Lemma find_phone_has_id D i r : find_phone D i = Some r -> has_id i r = true.
Proof. intros H. by apply find_some in H as [_ H]. Qed.

Lemma find_phone_In D i r : find_phone D i = Some r -> In r D.
Proof. intros H. by apply find_some in H as [H _]. Qed.

Lemma find_phone_existsb D i :
  existsb (has_id i) D = match find_phone D i with Some _ => true | None => false end.
Proof.
  unfold find_phone. induction D as [|p D IH]; simpl; [reflexivity|].
  destruct (has_id i p); simpl; [reflexivity | exact IH].
Qed.

(** [find] returns the earliest record that passes the test. *)
Lemma find_earliest {A} (f : A -> bool) (l : list A) (x : A) :
  List.find f l = Some x <->
  exists pre post, l = pre ++ x :: post /\ f x = true /\ Forall (fun y => f y = false) pre.
Proof.
  induction l as [|a l IH]; simpl.
  - split; [discriminate|]. intros (pre & post & H & _). by destruct pre.
  - destruct (f a) eqn:Ha.
    + split.
      * intros [= ->]. exists [], l. repeat split; [done | constructor].
      * intros (pre & post & H & Hx & Hpre). destruct pre as [|b pre]; simpl in H.
        -- by injection H as -> _.
        -- injection H as <- _. apply Forall_cons in Hpre as [Hb _]. congruence.
    + rewrite IH. split.
      * intros (pre & post & -> & Hx & Hpre). exists (a :: pre), post.
        repeat split; [done | by constructor].
      * intros (pre & post & H & Hx & Hpre). destruct pre as [|b pre]; simpl in H.
        -- injection H as -> _. congruence.
        -- injection H as _ ->. apply Forall_cons in Hpre as [_ Hpre]. eauto.
Qed.

Lemma filter_has_id_resolve L D i :
  List.filter (has_id i) (resolve L D) =
  match find_phone D i with
  | Some r => repeat r (length (List.filter (String.eqb i) L))
  | None => []
  end.
Proof.
  induction L as [|j L IH].
  - simpl. by destruct (find_phone D i).
  - rewrite resolve_cons. simpl.
    destruct (String.eqb_spec i j) as [<-|Hne].
    + destruct (find_phone D i) as [r|] eqn:Hi; [|exact IH].
      simpl. rewrite (find_phone_has_id _ _ _ Hi). by rewrite IH.
    + destruct (find_phone D j) as [r|] eqn:Hj; [|exact IH].
      simpl. destruct (has_id i r) eqn:Hir; [|exact IH].
      exfalso. apply Hne. eapply has_id_unique; [exact Hir|].
      by eapply find_phone_has_id.
Qed.

Lemma resolve_ids L D :
  map (lookup_prop "id") (resolve L D) =
  map JStr (List.filter (fun i => existsb (has_id i) D) L).
Proof.
  induction L as [|i L IH]; [reflexivity|].
  rewrite resolve_cons. simpl. rewrite find_phone_existsb.
  destruct (find_phone D i) as [r|] eqn:Hi; [|exact IH].
  simpl. rewrite IH. f_equal.
  apply has_id_true. by eapply find_phone_has_id.
Qed.

Lemma resolve_In L D r : In r (resolve L D) -> In r D.
Proof.
  induction L as [|i L IH]; [by simpl|].
  rewrite resolve_cons. destruct (find_phone D i) as [r'|] eqn:Hi; [|exact IH].
  intros [<-|H]; [by eapply find_phone_In | by apply IH].
Qed.

Lemma existsb_has_id_perm D D' i :
  D ≡ₚ D' -> existsb (has_id i) D = existsb (has_id i) D'.
Proof.
  intros HP. apply eq_true_iff_eq. rewrite !existsb_exists.
  split; intros (x & Hx & Hf); exists x; split; try done;
    apply list_elem_of_In; apply list_elem_of_In in Hx;
    [by rewrite <- HP | by rewrite HP].
Qed.

End Resolver.

(** C1. For every request list [L] and every dataset [D], the identifiers of
    the resolved records are those of [L], in the order of [L], with the
    identifiers that match no record of [D] left out; every resolved record is
    a record of [D]; and the order of [D] has no influence on that sequence
    of identifiers. *)
Theorem resolve_in_requested_order (L : list string) (D : dataset) :
  map (lookup_prop "id") (resolve L D)
    = map JStr (List.filter (fun i => existsb (has_id i) D) L)
  /\ Forall (fun r => In r D) (resolve L D)
  /\ (forall D', D ≡ₚ D' ->
        map (lookup_prop "id") (resolve L D') = map (lookup_prop "id") (resolve L D)).
Proof.
  split; [apply resolve_ids|]. split.
  - apply List.Forall_forall. intros r. apply resolve_In.
  - intros D' HP. rewrite !resolve_ids. f_equal.
    apply List.filter_ext. intros i. symmetry. by apply existsb_has_id_perm.
Qed.

(** C10. Each requested identifier is resolved on its own, by first match in
    dataset order: the resolved list holds, for an identifier [i] that occurs
    [k] times in the request, [k] copies of the record found for [i] (none is
    removed as a duplicate); the record found is the earliest record of the
    dataset whose [id] is [i]; the phone page looks its record up the same
    way. *)
Theorem resolve_first_match_per_request (L : list string) (D : dataset) (i : string) :
  List.filter (has_id i) (resolve L D)
    = match find_phone D i with
      | Some r => repeat r (length (List.filter (String.eqb i) L))
      | None => []
      end
  /\ (forall r, find_phone D i = Some r <->
        exists pre post, D = pre ++ r :: post /\ has_id i r = true
                         /\ Forall (fun p => has_id i p = false) pre)
  /\ find_item D (Some i) = find_phone D i.
Proof.
  split; [apply filter_has_id_resolve|]. split.
  - intros r. apply find_earliest.
  - reflexivity.
Qed.

(** ** Comparison table *)

Section ComparisonTable.

Implicit Types (d : document) (phones : dataset) (sel : list record).

Lemma resolve_empty_iff (L : list string) phones :
  resolve L phones = [] <-> Forall (fun i => existsb (has_id i) phones = false) L.
Proof.
  induction L as [|i L IH].
  - split; [constructor | reflexivity].
  - rewrite resolve_cons, Forall_cons, find_phone_existsb.
    destruct (find_phone phones i); [|rewrite IH]; naive_solver.
Qed.

Lemma length_zero_eqb {A} (l : list A) : (length l =? 0) = true <-> l = [].
Proof. destruct l; simpl; split; (done || discriminate). Qed.

Lemma length_zero_eqb_false {A} (l : list A) : l <> [] -> (length l =? 0) = false.
Proof. by destruct l. Qed.




Lemma filter_sublist {A} (f : A -> bool) (l : list A) : sublist (List.filter f l) l.
Proof.
  induction l as [|a l IH]; simpl; [constructor|].
  destruct (f a); by constructor.
Qed.


(** A failed write to [errorMessage] fails again in the [catch] block. *)
Lemma try_with_error_message (f : message_el -> message_el) d :
  try_catch (with_error_message f d) on_error = with_error_message f d.
Proof.
  unfold with_error_message. destruct (error_message d) eqn:He; [reflexivity|].
  unfold try_catch, on_error, with_error_message. by rewrite He.
Qed.

Lemma final_with_error_message (f : message_el -> message_el) d :
  final (with_error_message f d)
    = match error_message d with
      | Some m => set_error_message (f m) d
      | None => d
      end.
Proof. unfold with_error_message. by destruct (error_message d). Qed.

Variable read_back : string -> string.

(** The run of [generateComparisonTable] when at least one record resolves. *)
Lemma generateComparisonTable_resolved phones d hdr body :
  header_row d = Some hdr -> table_body d = Some body ->
  resolve (getComparisonIds d) phones <> [] ->
  let sel := resolve (getComparisonIds d) phones in
  generateComparisonTable read_back phones d =
  with_error_message (set_display "none")
    (set_table_body (read_back (join "" (spec_rows sel)) +:+ sourceRow sel)
       (set_table_body (join "" (spec_rows sel))
          (set_header_row (header_html sel)
             (addStructuredData sel (updatePageMeta sel d))))).
Proof.
  intros Hh Hb Hsel sel. unfold generateComparisonTable. rewrite Hh, Hb.
  assert (getComparisonIds d <> []) as Hids.
  { intros E. apply Hsel. by rewrite E. }
  rewrite (length_zero_eqb_false _ Hids), (length_zero_eqb_false _ Hsel).
  cbv zeta. fold sel. apply try_with_error_message.
Qed.


End ComparisonTable.

Section RowShape.

Implicit Types (sel : list record).








End RowShape.





(** ** Structured data *)

Section StructuredData.

Implicit Types (d : document) (sel : list record) (s : script_el).

Lemma find_app_last {A} (f : A -> bool) (l : list A) (x : A) :
  f x = true -> exists y, List.find f (l ++ [x]) = Some y.
Proof.
  intros Hx. induction l as [|a l IH]; simpl.
  - rewrite Hx. by eexists.
  - destruct (f a); [by eexists | exact IH].
Qed.

(** Once a product-schema script is in the document, no call appends. *)
Lemma addStructuredData_present sel d s :
  List.find is_product_schema (scripts d) = Some s -> addStructuredData sel d = d.
Proof.
  intros H. unfold addStructuredData. rewrite H. by destruct (length sel =? 0).
Qed.

Lemma addStructuredData_has_schema sel d :
  sel <> [] ->
  exists s, List.find is_product_schema (scripts (addStructuredData sel d)) = Some s.
Proof.
  intros Hne. unfold addStructuredData. rewrite (length_zero_eqb_false _ Hne).
  destruct (List.find is_product_schema (scripts d)) as [s|] eqn:Hf.
  - by exists s.
  - simpl. by apply find_app_last.
Qed.

Lemma addStructuredData_idem sel sel' d :
  sel <> [] ->
  addStructuredData sel' (addStructuredData sel d) = addStructuredData sel d.
Proof.
  intros Hne. destruct (addStructuredData_has_schema sel d Hne) as [s Hs].
  by eapply addStructuredData_present.
Qed.

Lemma addStructuredData_twice sel d :
  addStructuredData sel (addStructuredData sel d) = addStructuredData sel d.
Proof.
  destruct sel as [|p sel]; [reflexivity|]. by apply addStructuredData_idem.
Qed.

(** The number of product-schema scripts after a call. *)
Lemma addStructuredData_count sel d :
  length (List.filter is_product_schema (scripts (addStructuredData sel d)))
  <= Nat.max 1 (length (List.filter is_product_schema (scripts d))).
Proof.
  unfold addStructuredData. destruct (length sel =? 0); [lia|].
  destruct (List.find is_product_schema (scripts d)) eqn:Hf; [lia|].
  simpl. rewrite List.filter_app, length_app. simpl.
  assert (List.filter is_product_schema (scripts d) = []) as ->; [|simpl; lia].
  induction (scripts d) as [|a l IH]; [reflexivity|]. simpl in *.
  destruct (is_product_schema a); [discriminate | by apply IH].
Qed.

Lemma updatePageMeta_scripts sel d :
  scripts (updatePageMeta sel d) = scripts d
  /\ href (updatePageMeta sel d) = href d.
Proof.
  unfold updatePageMeta. destruct (length sel =? 0); [done|].
  cbv zeta. destruct (title d); simpl; destruct (meta_description d); simpl;
    by destruct (page_title d).
Qed.

Lemma addStructuredData_scripts_ext sel d d' :
  scripts d' = scripts d -> href d' = href d ->
  scripts (addStructuredData sel d') = scripts (addStructuredData sel d).
Proof.
  intros Hs Hh. unfold addStructuredData. destruct (length sel =? 0); [done|].
  rewrite Hs. destruct (List.find _ _); [done|]. simpl.
  unfold comparisonSchema. by rewrite Hs, Hh.
Qed.

Lemma getComparisonIds_ext d d' :
  data_ids d' = data_ids d -> query_ids d' = query_ids d ->
  getComparisonIds d' = getComparisonIds d.
Proof. intros H1 H2. unfold getComparisonIds, getQueryParams. by rewrite H1, H2. Qed.

Lemma updatePageMeta_keeps sel d :
  data_ids (updatePageMeta sel d) = data_ids d
  /\ query_ids (updatePageMeta sel d) = query_ids d.
Proof.
  unfold updatePageMeta. destruct (length sel =? 0); [done|].
  cbv zeta. destruct (title d); simpl; destruct (meta_description d); simpl;
    by destruct (page_title d).
Qed.

Lemma addStructuredData_keeps sel d :
  data_ids (addStructuredData sel d) = data_ids d
  /\ query_ids (addStructuredData sel d) = query_ids d
  /\ href (addStructuredData sel d) = href d.
Proof.
  unfold addStructuredData. destruct (length sel =? 0); [done|].
  by destruct (List.find _ _).
Qed.

Variable read_back : string -> string.

(** The scripts after a render are those after the injection alone. *)
Lemma generateComparisonTable_scripts phones d :
  scripts (final (generateComparisonTable read_back phones d))
  = match header_row d, table_body d with
    | Some _, Some _ => scripts (addStructuredData (resolve (getComparisonIds d) phones) d)
    | _, _ => scripts d
    end.
Proof.
  destruct (header_row d) as [hdr|] eqn:Hh, (table_body d) as [body|] eqn:Hb;
    try (unfold generateComparisonTable; by rewrite Hh, ?Hb).
  destruct (resolve (getComparisonIds d) phones) as [|p sel] eqn:Hsel.
  - unfold generateComparisonTable. rewrite Hh, Hb, Hsel.
    destruct (length (getComparisonIds d) =? 0); [reflexivity|]. simpl.
    unfold with_error_message. destruct (error_message d) eqn:He; simpl.
    + reflexivity.
    + unfold on_error, with_error_message. by rewrite He.
  - erewrite generateComparisonTable_resolved; [|done|done|by rewrite Hsel].
    rewrite Hsel, final_with_error_message.
    transitivity (scripts (addStructuredData (p :: sel) (updatePageMeta (p :: sel) d))).
    { by destruct (error_message _). }
    apply addStructuredData_scripts_ext; apply updatePageMeta_scripts.
Qed.

(** A render keeps the identifier sources and the mount points. *)
Lemma generateComparisonTable_keeps phones d :
  let d' := final (generateComparisonTable read_back phones d) in
  getComparisonIds d' = getComparisonIds d
  /\ href d' = href d
  /\ (is_Some (header_row d') <-> is_Some (header_row d))
  /\ (is_Some (table_body d') <-> is_Some (table_body d)).
Proof.
  cbv zeta.
  destruct (header_row d) as [hdr|] eqn:Hh, (table_body d) as [body|] eqn:Hb;
    try (unfold generateComparisonTable; rewrite Hh, ?Hb; simpl; by rewrite Hh, ?Hb).
  assert (forall x y : string, is_Some (Some x) <-> is_Some (Some y)) as Hsome.
  { intros x y. split; intros _; by eexists. }
  destruct (resolve (getComparisonIds d) phones) as [|p sel] eqn:Hsel.
  - unfold generateComparisonTable. rewrite Hh, Hb, Hsel.
    destruct (length (getComparisonIds d) =? 0).
    { simpl. rewrite Hh. repeat split; apply Hsome. }
    simpl. unfold with_error_message. destruct (error_message d) eqn:He; simpl.
    + rewrite Hh. repeat split; apply Hsome.
    + unfold on_error, with_error_message. rewrite He. simpl. by rewrite Hh, Hb.
  - erewrite generateComparisonTable_resolved; [|done|done|by rewrite Hsel].
    rewrite Hsel, final_with_error_message.
    destruct (addStructuredData_keeps (p :: sel) (updatePageMeta (p :: sel) d))
      as (Hd & Hq & Hr).
    destruct (updatePageMeta_keeps (p :: sel) d) as (Hd' & Hq').
    destruct (updatePageMeta_scripts (p :: sel) d) as (_ & Hr').
    split.
    { apply getComparisonIds_ext; destruct (error_message _); simpl; congruence. }
    split.
    { destruct (error_message _); simpl; congruence. }
    split; destruct (error_message _); simpl; apply Hsome.
Qed.

End StructuredData.

(** C8. Injecting the structured data twice gives the document that injecting
    it once gives; once a product-schema script is there a later injection,
    for whatever records, appends nothing; and the scripts after two renders
    of the comparison table are the scripts after one. *)
Theorem structured_data_not_duplicated (read_back : string -> string)
  (selectedPhones : list record) (d : document) :
  addStructuredData selectedPhones (addStructuredData selectedPhones d)
    = addStructuredData selectedPhones d
  /\ (forall (other : list record) (s : script_el),
        List.find is_product_schema (scripts d) = Some s ->
        addStructuredData other d = d)
  /\ length (List.filter is_product_schema (scripts (addStructuredData selectedPhones d)))
       <= Nat.max 1 (length (List.filter is_product_schema (scripts d)))
  /\ (forall phones : dataset,
        scripts (final (generateComparisonTable read_back phones
                          (final (generateComparisonTable read_back phones d))))
          = scripts (final (generateComparisonTable read_back phones d))).
Proof.
  split; [apply addStructuredData_twice|].
  split; [intros other s; apply addStructuredData_present|].
  split; [apply addStructuredData_count|].
  intros phones.
  destruct (generateComparisonTable_keeps read_back phones d) as (Hids & Hhref & Hh & Hb).
  rewrite (generateComparisonTable_scripts read_back phones (final _)).
  rewrite (generateComparisonTable_scripts read_back phones d).
  destruct (header_row d) as [hdr|] eqn:Eh, (header_row (final _)) as [hdr'|] eqn:Eh';
    try (exfalso; by no_element Hh); [|reflexivity].
  destruct (table_body d) as [body|] eqn:Eb, (table_body (final _)) as [body'|] eqn:Eb';
    try (exfalso; by no_element Hb); [|reflexivity].
  rewrite Hids.
  set (sel := resolve (getComparisonIds d) phones).
  transitivity (scripts (addStructuredData sel (addStructuredData sel d))).
  - apply addStructuredData_scripts_ext;
      [|rewrite Hhref; symmetry; apply addStructuredData_keeps].
    rewrite (generateComparisonTable_scripts read_back phones d). by rewrite Eh, Eb.
  - by rewrite addStructuredData_twice.
Qed.

(** ** Value flattening *)

Section Flatten.

Lemma join_element_truthy (v : value) : truthy v = true -> join_element v = ToString v.
Proof. by destruct v. Qed.

Lemma array_join_truthy (sep : string) (vs : list value) :
  array_join sep (List.filter truthy vs) = join sep (map ToString (List.filter truthy vs)).
Proof.
  unfold array_join. f_equal. apply map_ext_in. intros v Hv.
  apply List.filter_In in Hv as [_ Hv]. by apply join_element_truthy.
Qed.

End Flatten.

(** C7, as the code has it. [flattenValue] gives the dash for [null] and
    [undefined]; for an object or an array, the string forms of its truthy
    leaves joined with [" / "], a falsy leaf ([null], [undefined], the empty
    string, zero, [false]) being left out with no placeholder; and for any
    other value its string form. *)
Theorem flattenValue_cases (v : value) :
  (v = JNull \/ v = JUndefined -> flattenValue v = dash)
  /\ (forall props, v = JObj props ->
        flattenValue v = join " / " (map ToString (List.filter truthy (map snd props))))
  /\ (forall es, v = JArr es ->
        flattenValue v = join " / " (map ToString (List.filter truthy es)))
  /\ (forall k leaf rest, truthy leaf = false ->
        flattenValue (JObj ((k, leaf) :: rest)) = flattenValue (JObj rest))
  /\ (forall b, v = JBool b -> flattenValue v = ToString v)
  /\ (forall r, v = JNum r -> flattenValue v = r)
  /\ (forall s, v = JStr s -> flattenValue v = s).
Proof.
  split; [by intros [-> | ->]|].
  split; [intros props ->; apply array_join_truthy|].
  split; [intros es ->; apply array_join_truthy|].
  split.
  { intros k leaf rest Hleaf. unfold flattenValue. simpl. by rewrite Hleaf. }
  split; [by intros b ->|]. split; [by intros r ->|]. by intros s ->.
Qed.

(** A [null] or empty leaf of a nested object is not rendered as the dash:
    the flattened string of [{a: null, b: "x"}] is ["x"], that of [{a: null}]
    and of the empty string is empty. *)
Lemma flattenValue_null_leaf_is_dropped :
  ~ (forall leaves : list (string * value),
       Exists (fun kv => snd kv = JNull \/ snd kv = JStr "") leaves ->
       includes (flattenValue (JObj leaves)) dash = true)
  /\ flattenValue (JObj [("a", JNull); ("b", JStr "x")]) = "x"
  /\ flattenValue (JObj [("a", JNull)]) = ""
  /\ flattenValue (JStr "") = "".
Proof.
  split; [|by vm_compute].
  intros H. specialize (H [("a", JNull); ("b", JStr "x")]).
  assert (includes (flattenValue (JObj [("a", JNull); ("b", JStr "x")])) dash = false)
    as Hno by by vm_compute.
  rewrite H in Hno; [discriminate|]. constructor. by left.
Qed.

(** ** Index-page filter *)

Section Filter.

Implicit Types (s t hay needle : string) (i : record).

Lemma prefix_spec needle hay :
  String.prefix needle hay = true <-> exists post, hay = needle +:+ post.
Proof.
  revert hay. induction needle as [|c needle IH]; intros [|c' hay]; simpl.
  - split; [intros _; by exists "" | done].
  - split; [intros _; by exists (String c' hay) | done].
  - split; [done | by intros [? ?]].
  - destruct (Ascii.ascii_dec c c') as [<-|Hne].
    + rewrite IH. split; intros [post E]; exists post; [by rewrite E | by injection E].
    + split; [done|]. intros [post E]. injection E as E _. congruence.
Qed.

Lemma includes_unfold hay needle :
  includes hay needle =
  if String.prefix needle hay then true
  else match hay with
       | EmptyString => false
       | String _ hay' => includes hay' needle
       end.
Proof. by destruct hay. Qed.

(** [includes] is the substring test. *)
Lemma includes_spec hay needle :
  includes hay needle = true <-> exists pre post, hay = pre +:+ needle +:+ post.
Proof.
  split.
  - induction hay as [|c hay IH]; rewrite includes_unfold.
    + destruct (String.prefix needle "") eqn:Hp; [|done].
      intros _. apply prefix_spec in Hp as [post E]. by exists "", post.
    + destruct (String.prefix needle (String c hay)) eqn:Hp.
      * intros _. apply prefix_spec in Hp as [post E]. by exists "", post.
      * intros H. destruct (IH H) as (pre & post & ->). by exists (String c pre), post.
  - intros (pre & post & ->). induction pre as [|c pre IH]; rewrite includes_unfold.
    + assert (String.prefix needle ("" +:+ needle +:+ post) = true) as ->; [|done].
      apply prefix_spec. by exists post.
    + destruct (String.prefix _ _); [done | exact IH].
Qed.

Lemma toLowerCase_empty s : toLowerCase s = "" <-> s = "".
Proof. by destruct s. Qed.

Lemma toLowerCase_app s t : toLowerCase (s +:+ t) = toLowerCase s +:+ toLowerCase t.
Proof. induction s as [|c s IH]; simpl; [done | by rewrite IH]. Qed.

Lemma truthy_JStr s : truthy (JStr s) = true <-> s <> "".
Proof.
  simpl. destruct (String.eqb_spec s ""); simpl; split; congruence.
Qed.

Lemma matches_empty_query brand i :
  matches "" brand i = true <->
  brand = "" \/ lookup_prop "brand" i = JStr brand.
Proof.
  unfold matches. simpl.
  destruct (String.eqb_spec brand "") as [->|Hb]; simpl; [naive_solver|].
  destruct (strict_eq (lookup_prop "brand" i) (JStr brand)) eqn:E; simpl.
  - split; [|done]. intros _. right. unfold strict_eq in E.
    destruct (lookup_prop "brand" i); try done. apply String.eqb_eq in E. by subst.
  - split; [done|]. intros [?|H]; [done|]. rewrite H in E. simpl in E.
    by rewrite String.eqb_refl in E.
Qed.

(** The shape of [matches]: the brand test, then the text test on
    [search_text]. *)
Lemma matches_spec q brand i :
  matches q brand i = true <->
  (brand = "" \/ lookup_prop "brand" i = JStr brand)
  /\ (q = "" \/ exists pre post,
                  toLowerCase (search_text i) = pre +:+ toLowerCase q +:+ post).
Proof.
  rewrite <- matches_empty_query. unfold matches.
  destruct (truthy (JStr brand) && _); [naive_solver|].
  change (text (JStr q)) with (toLowerCase q).
  change (text (JStr "")) with "".
  change (text (JStr (search_text i))) with (toLowerCase (search_text i)).
  simpl (negb (truthy (JStr ""))). cbv iota.
  destruct (truthy (JStr (toLowerCase q))) eqn:Hq; simpl.
  - rewrite includes_spec. apply truthy_JStr in Hq.
    rewrite toLowerCase_empty in Hq. naive_solver.
  - assert (q = "") as ->; [|naive_solver].
    apply toLowerCase_empty. destruct (String.eqb_spec (toLowerCase q) ""); [done|].
    simpl in Hq. destruct (String.eqb_spec (toLowerCase q) ""); done.
Qed.

Lemma matches_relax q brand i : matches q brand i = true -> matches "" brand i = true.
Proof. rewrite matches_spec, matches_empty_query. tauto. Qed.

Lemma filter_sublist_impl {A} (f g : A -> bool) (l : list A) :
  (forall x, f x = true -> g x = true) -> sublist (List.filter f l) (List.filter g l).
Proof.
  intros H. induction l as [|a l IH]; simpl; [constructor|].
  destruct (f a) eqn:Hf.
  - rewrite (H _ Hf). by constructor.
  - destruct (g a); [by constructor | done].
Qed.

(** When every card can be built, [append_cards] appends them all. *)
Lemma append_cards_built date_valid toLocaleDateString (l : list record) (pg : page) :
  Forall (fun i => is_Some (card date_valid toLocaleDateString i)) l ->
  append_cards date_valid toLocaleDateString l pg
  = Returned (mkPage (q_value pg) (brand_value pg) (count_text pg)
                (grid pg ++ omap (card date_valid toLocaleDateString) l)).
Proof.
  revert pg. induction l as [|i l IH]; intros pg Hall.
  - simpl. rewrite app_nil_r. by destruct pg.
  - apply Forall_cons in Hall as [[n Hn] Hall]. simpl.
    rewrite Hn. rewrite (IH _ Hall). simpl.
    by rewrite <- app_assoc.
Qed.

Lemma omap_sublist {A B} (f : A -> option B) (l1 l2 : list A) :
  sublist l1 l2 -> sublist (omap f l1) (omap f l2).
Proof.
  induction 1 as [|x l1 l2 _ IH|x l1 l2 _ IH]; simpl.
  - constructor.
  - destruct (f x); [by constructor | done].
  - destruct (f x); [by constructor | done].
Qed.

End Filter.

(** C4, as the code has it. For a record whose brand, model, id and chipset
    name are strings, the filter matches exactly when the brand constraint is
    empty or is the record's brand, and the query is empty or its lower-case
    form occurs in the lower-case form of brand, model, id and chipset name
    joined by single spaces. On the dataset of the scenario, the query "z1"
    with no brand constraint shows exactly one card. *)
Theorem matches_brand_and_joined_text :
  (forall (q brand : string) (i : record) (b m id c : string),
     lookup_prop "brand" i = JStr b ->
     lookup_prop "model" i = JStr m ->
     lookup_prop "id" i = JStr id ->
     get_opt (lookup_prop "chipset" i) "name" = JStr c ->
     (matches q brand i = true <->
      (brand = "" \/ b = brand)
      /\ (q = "" \/
          exists pre post,
            toLowerCase (b +:+ " " +:+ m +:+ " " +:+ id +:+ " " +:+ c)
              = pre +:+ toLowerCase q +:+ post)))
  /\ (forall date_valid toLocaleDateString,
        exists shown,
          card date_valid toLocaleDateString Scenario.acme = Some shown
          /\ type_query date_valid toLocaleDateString "z1" [Scenario.acme]
               (Scenario.index_page "" "")
             = Returned (mkPage "z1" "" "1 phones" [shown])).
Proof.
  split; [|intros dv tl; eexists; split; by vm_compute].
  intros q brand i b m id c Hb Hm Hid Hc.
  rewrite matches_spec. unfold search_text. rewrite Hb, Hm, Hid, Hc. simpl ToString.
  split; intros [H1 H2]; (split; [|exact H2]).
  - destruct H1 as [?|[= ?]]; [by left | by right].
  - destruct H1 as [?|?]; [by left | right; by f_equal].
Qed.

(** The scenario record matches the query "z1". *)
Lemma matches_scenario : matches "z1" "" Scenario.acme = true.
Proof.
  apply (proj1 matches_brand_and_joined_text "z1" "" Scenario.acme "Acme" "X1" "a" "Z1"
           eq_refl eq_refl eq_refl eq_refl).
  split; [by left|]. right. by exists "acme x1 a ", "".
Defined.

(** The query "acme x1" matches the scenario record, because brand and model
    are joined by a space; it is no substring of their bare concatenation. *)
Lemma matches_spans_the_separator :
  matches "acme x1" "" Scenario.acme = true
  /\ matches_as_specified "acme x1" "" Scenario.acme = false
  /\ matches "x1a" "" Scenario.acme = false
  /\ matches_as_specified "x1a" "" Scenario.acme = true.
Proof. by vm_compute. Qed.

(** A record without a chipset is found by the query "undefined": the
    template literal prints the absent name before [text] can blank it. *)
Example matches_absent_chipset :
  search_text Scenario.bolt = "Bolt Y2 b undefined"
  /\ matches "undefined" "" Scenario.bolt = true.
Proof. by vm_compute. Qed.

(** A record without a brand stops the repaint: [card] hands [undefined] to
    [appendChild]. The count is written, the grid stays empty. *)
Example repaint_record_without_brand :
  forall date_valid toLocaleDateString,
    repaint date_valid toLocaleDateString [[("id", JStr "n"); ("model", JStr "N1")]]
      (Scenario.index_page "" "")
    = Thrown (mkPage "" "" "1 phones" []).
Proof. intros dv tl. by vm_compute. Qed.

(** C5. With the same brand constraint, the records that pass the filter
    under a query [q] are among those that pass it under the empty query, in
    the same order; and when the card of every record can be built, the cards
    shown for [q] are among the cards shown for the empty query. *)
Theorem relaxing_query_is_monotone (D : dataset) (q brand : string) :
  sublist (List.filter (matches q brand) D) (List.filter (matches "" brand) D)
  /\ (forall r, In r (List.filter (matches q brand) D) ->
                In r (List.filter (matches "" brand) D))
  /\ (forall date_valid toLocaleDateString pg,
        brand_value pg = brand ->
        Forall (fun i => is_Some (card date_valid toLocaleDateString i)) D ->
        exists narrow wide,
          type_query date_valid toLocaleDateString q D pg = Returned narrow
          /\ type_query date_valid toLocaleDateString "" D pg = Returned wide
          /\ sublist (grid narrow) (grid wide)).
Proof.
  assert (sublist (List.filter (matches q brand) D) (List.filter (matches "" brand) D)) as Hs.
  { apply filter_sublist_impl. intros r. apply matches_relax. }
  split; [exact Hs|]. split.
  - intros r Hr. apply list_elem_of_In. eapply elem_of_sublist; [|exact Hs].
    by apply list_elem_of_In.
  - intros dv tl pg <- Hcards. unfold type_query, repaint. cbn [q_value brand_value].
    assert (forall f, Forall (fun i => is_Some (card dv tl i)) (List.filter f D)) as Hf.
    { intros f. apply List.Forall_forall. intros i Hi.
      apply List.filter_In in Hi as [Hi _].
      by apply (proj1 (List.Forall_forall _ _) Hcards). }
    rewrite !append_cards_built by apply Hf.
    eexists _, _. split; [reflexivity|]. split; [reflexivity|].
    cbn [grid app]. by apply omap_sublist.
Qed.

(** ** Dataset loader *)

Section Loader.

Variable srv : server.

Implicit Types (cands log : list string) (items : value).

Lemma try_paths_cons p cands log :
  try_paths srv (p :: cands) log =
  match candidate srv p with
  | Some items => (log ++ [p], Some items)
  | None => try_paths srv cands (log ++ [p])
  end.
Proof.
  simpl. unfold candidate. destruct (fetchJSON srv p) as [data|]; [|done].
  by destruct (truthy (get_opt data "items")).
Qed.

Lemma try_paths_found cands log log' items :
  try_paths srv cands log = (log', Some items) <->
  exists pre p post,
    cands = pre ++ p :: post
    /\ Forall (fun c => candidate srv c = None) pre
    /\ candidate srv p = Some items
    /\ log' = log ++ pre ++ [p].
Proof.
  revert log. induction cands as [|c cands IH]; intros log.
  - simpl. split; [done|]. intros (pre & p & post & E & _). by destruct pre.
  - rewrite try_paths_cons. destruct (candidate srv c) as [found|] eqn:Hc.
    + split.
      * intros [= <- <-]. exists [], c, cands. by repeat split.
      * intros (pre & p & post & E & Hpre & Hp & ->).
        destruct pre as [|c' pre]; simpl in E.
        -- injection E as <- _. rewrite Hc in Hp. by injection Hp as ->.
        -- injection E as <- _. apply Forall_cons in Hpre as [Hc' _]. congruence.
    + rewrite IH. split.
      * intros (pre & p & post & -> & Hpre & Hp & ->).
        exists (c :: pre), p, post. repeat split; [by constructor | done |].
        by rewrite <- app_assoc.
      * intros (pre & p & post & E & Hpre & Hp & ->).
        destruct pre as [|c' pre]; simpl in E.
        -- injection E as <- _. congruence.
        -- injection E as <- ->. apply Forall_cons in Hpre as [_ Hpre].
           exists pre, p, post. repeat split; [done | done |].
           by rewrite <- app_assoc.
Qed.

Lemma try_paths_none cands log log' :
  try_paths srv cands log = (log', None) <->
  Forall (fun c => candidate srv c = None) cands /\ log' = log ++ cands.
Proof.
  revert log. induction cands as [|c cands IH]; intros log.
  - simpl. rewrite app_nil_r. split; [by intros [= <-] | by intros [_ ->]].
  - rewrite try_paths_cons, Forall_cons. destruct (candidate srv c) eqn:Hc.
    + split; [done | by intros [[? _] _]].
    + rewrite IH, <- app_assoc. naive_solver.
Qed.

(** The URLs fetched are an initial segment of the candidates. *)
Lemma try_paths_log cands log :
  exists k, fst (try_paths srv cands log) = log ++ take k cands.
Proof.
  revert log. induction cands as [|c cands IH]; intros log.
  - exists 0. simpl. by rewrite app_nil_r.
  - rewrite try_paths_cons. destruct (candidate srv c).
    + by exists 1.
    + destruct (IH (log ++ [c])) as [k Hk]. exists (S k).
      rewrite Hk. simpl. by rewrite <- app_assoc.
Qed.

Lemma paths_NoDup : NoDup paths.
Proof. apply (bool_decide_unpack _). by vm_compute. Qed.

End Loader.

(** C3, as the code has it. [loadPhones] fetches the candidate URLs in order
    and returns the value under the [items] key of the first candidate whose
    fetch succeeds with a JSON body in which [items] is truthy, having fetched
    exactly the candidates up to that one; a body that is itself an array is
    not accepted. When no candidate qualifies it throws the single error "No
    phone dataset found" after fetching each candidate once, and the page-load
    handler then unhides the load-error element, when the page has one, with
    its failure message. No URL is fetched twice. *)
Theorem loadPhones_first_keyed_candidate (srv : server) :
  (forall log items,
     loadPhones srv = (log, inl items) <->
     exists pre p post,
       paths = pre ++ p :: post
       /\ Forall (fun c => candidate srv c = None) pre
       /\ candidate srv p = Some items
       /\ log = pre ++ [p])
  /\ (forall log msg,
        loadPhones srv = (log, inr msg) <->
        Forall (fun c => candidate srv c = None) paths
        /\ log = paths /\ msg = no_dataset)
  /\ (forall url es, fetchJSON srv url = Some (JArr es) -> candidate srv url = None)
  /\ (forall url items,
        candidate srv url = Some items <->
        exists data, srv url = Http true (Some data)
                     /\ get_opt data "items" = items /\ truthy items = true)
  /\ (fst (loadPhones srv) `prefix_of` paths /\ NoDup (fst (loadPhones srv)))
  /\ (forall (content : Type)
             (renderCompare renderPhonePage : value -> content -> completion content)
             (pg : loaded_page content) (e : bool * string),
        snd (loadPhones srv) = inr no_dataset ->
        load_error pg = Some e ->
        on_DOMContentLoaded content renderCompare renderPhonePage srv pg
          = (paths, mkLoaded (page_kind pg) (Some (false, load_failed)) (body pg))).
Proof.
  assert (forall log msg,
            loadPhones srv = (log, inr msg) <->
            Forall (fun c => candidate srv c = None) paths
            /\ log = paths /\ msg = no_dataset) as Hfail.
  { intros log msg. unfold loadPhones.
    destruct (try_paths srv paths []) as [log' [found|]] eqn:Ht.
    - split; [done|]. intros (Hall & _ & _).
      assert (try_paths srv paths [] = (paths, None)) as Hn by by apply try_paths_none.
      congruence.
    - apply try_paths_none in Ht as [Hall ->]. simpl. naive_solver. }
  split.
  { intros log items. unfold loadPhones.
    destruct (try_paths srv paths []) as [log' [found|]] eqn:Ht.
    - transitivity (try_paths srv paths [] = (log, Some items)).
      + rewrite Ht. naive_solver.
      + apply try_paths_found.
    - split; [done|]. intros (pre & p & post & E & Hpre & Hp & ->).
      assert (try_paths srv paths [] = ([] ++ pre ++ [p], Some items)) as Hf.
      { apply try_paths_found. by exists pre, p, post. }
      congruence. }
  split; [exact Hfail|].
  split.
  { intros url es H. unfold candidate. by rewrite H. }
  split.
  { intros url items. unfold candidate, fetchJSON.
    destruct (srv url) as [|[|] [data|]]; try (split; [done | by intros (? & ? & _)]).
    destruct (truthy (get_opt data "items")) eqn:Ht.
    - split.
      + intros [= <-]. by exists data.
      + by intros (data' & [= <-] & <- & _).
    - split; [done|]. intros (data' & [= <-] & <- & Ht'). congruence. }
  split.
  { destruct (try_paths_log srv paths []) as [k Hk].
    assert (fst (loadPhones srv) = take k paths) as ->.
    { unfold loadPhones. destruct (try_paths srv paths []) as [log' [found|]]; exact Hk. }
    split.
    - exists (drop k paths). by rewrite take_drop.
    - eapply sublist_NoDup; [apply paths_NoDup | apply sublist_take]. }
  intros content renderCompare renderPhonePage pg e Hl He.
  assert (loadPhones srv = (fst (loadPhones srv), inr no_dataset)) as Hload.
  { rewrite <- Hl. by destruct (loadPhones srv). }
  pose proof (proj1 (Hfail _ _) Hload) as (_ & Hlog & _).
  unfold on_DOMContentLoaded. rewrite Hload, Hlog.
  unfold show_load_error. by rewrite He.
Qed.

(** Every candidate answers with a bare array of records: none is accepted,
    and the load fails. *)
Lemma loadPhones_rejects_bare_array :
  loadPhones (Scenario.always (Http true (Some (JArr [JObj Scenario.acme]))))
    = (paths, inr no_dataset).
Proof. by vm_compute. Qed.

(** No candidate can be fetched: each is tried once and the index page shows
    the failure message. *)
Lemma load_failure_scenario :
  on_DOMContentLoaded unit (fun _ => Returned) (fun _ => Returned)
    (Scenario.always NetworkError) (Scenario.loading_page "compare-index")
  = (paths, mkLoaded (Some "compare-index") (Some (false, load_failed)) tt).
Proof.
  exact (proj2 (proj2 (proj2 (proj2 (proj2
    (loadPhones_first_keyed_candidate (Scenario.always NetworkError))))))
    unit (fun _ => Returned) (fun _ => Returned)
    (Scenario.loading_page "compare-index") (true, "") eq_refl eq_refl).
Defined.

(** ** Identifier sources *)

Section Identifiers.

Implicit Types (s t : string) (c sep : ascii).

Lemma split_cons sep s : exists piece pieces, split sep s = piece :: pieces.
Proof.
  destruct s as [|c s]; simpl; [by eexists _, _|].
  destruct (Ascii.eqb c sep); [by eexists _, _|].
  destruct (split sep s); by eexists _, _.
Qed.

Lemma join_cons_char (sepstr : string) c piece (pieces : list string) :
  join sepstr (String c piece :: pieces) = String c (join sepstr (piece :: pieces)).
Proof. by destruct pieces. Qed.

(** Joining the pieces with the separator gives the string back. *)
Lemma join_split sep s : join (String sep "") (split sep s) = s.
Proof.
  induction s as [|c s IH]; [reflexivity|]. simpl.
  destruct (split_cons sep s) as (piece & pieces & E). rewrite E in IH |- *.
  destruct (Ascii.eqb_spec c sep) as [->|Hne].
  - change (join (String sep "") ("" :: piece :: pieces))
      with (String sep (join (String sep "") (piece :: pieces))).
    by rewrite IH.
  - by rewrite join_cons_char, IH.
Qed.

(** No piece contains the separator. *)
Lemma split_no_separator sep s :
  Forall (fun piece => has_char sep piece = false) (split sep s).
Proof.
  induction s as [|c s IH]; simpl; [by repeat constructor|].
  destruct (Ascii.eqb_spec c sep) as [->|Hne]; [by constructor|].
  destruct (split sep s) as [|piece pieces]; simpl.
  - repeat constructor. simpl. destruct (Ascii.eqb_spec sep c); [congruence | done].
  - apply Forall_cons in IH as [Hp Hps]. constructor; [|done].
    simpl. rewrite Hp. destruct (Ascii.eqb_spec sep c); [congruence | done].
Qed.

Lemma trimStart_spec s :
  exists l, s = l +:+ trimStart s /\ all_space l = true
            /\ (forall c, first_char (trimStart s) = Some c -> is_space c = false).
Proof.
  induction s as [|c s (l & E & Hl & Hc)].
  - exists "". by repeat split.
  - simpl. destruct (is_space c) eqn:Hs.
    + exists (String c l). simpl. rewrite Hs, Hl.
      split; [|split; [done | exact Hc]].
      change (String c l +:+ trimStart s) with (String c (l +:+ trimStart s)).
      by rewrite <- E.
    + exists "". split; [done|]. split; [done|]. simpl. intros ? [= <-]. exact Hs.
Qed.

Lemma trimEnd_spec s :
  exists r, s = trimEnd s +:+ r /\ all_space r = true
            /\ (forall c, last_char (trimEnd s) = Some c -> is_space c = false).
Proof.
  induction s as [|c s (r & E & Hr & Hc)].
  - exists "". by repeat split.
  - simpl. destruct (trimEnd s) as [|a u] eqn:Ht.
    + simpl in E. subst s. destruct (is_space c) eqn:Hs.
      * exists (String c r). simpl. rewrite Hs, Hr. by repeat split.
      * exists r. split; [done|]. split; [done|]. simpl. intros ? [= <-]. exact Hs.
    + exists r. split; [simpl; by rewrite E at 1|]. split; [done | exact Hc].
Qed.

Lemma trimEnd_first s c :
  first_char s = Some c -> is_space c = false -> first_char (trimEnd s) = Some c.
Proof.
  destruct s as [|c' s]; [done|]. simpl. intros [= ->] Hc.
  destruct (trimEnd s); [by rewrite Hc | done].
Qed.

Lemma trimEnd_empty_first s :
  first_char (trimEnd s) = None \/ first_char (trimEnd s) = first_char s.
Proof.
  destruct s as [|c s]; [by left|]. simpl.
  destruct (trimEnd s); [destruct (is_space c); [by left | by right] | by right].
Qed.

(** [trim] removes white space at both ends and nothing else. *)
Lemma trim_spec s :
  exists l r, s = l +:+ trim s +:+ r
              /\ all_space l = true /\ all_space r = true
              /\ (forall c, first_char (trim s) = Some c -> is_space c = false)
              /\ (forall c, last_char (trim s) = Some c -> is_space c = false).
Proof.
  destruct (trimStart_spec s) as (l & El & Hl & Hfirst).
  destruct (trimEnd_spec (trimStart s)) as (r & Er & Hr & Hlast).
  exists l, r. unfold trim. repeat split; try done.
  - by rewrite <- Er.
  - intros c Hc. apply Hfirst.
    destruct (trimEnd_empty_first (trimStart s)) as [H|H]; congruence.
Qed.

End Identifiers.

(** C9, as the code has it. The identifier list comes from the [data-ids]
    attribute whenever an element of the page carries one, whatever the URL
    holds: its comma-separated pieces, trimmed, in order, or the empty list
    for an empty attribute. Only a page with no such element reads the [ids]
    query parameter, split and trimmed the same way, with the empty list for
    an absent or empty parameter. Splitting loses nothing and leaves no comma
    in a piece; trimming removes white space at the two ends only. *)
Theorem comparison_ids_source (d : document) :
  (forall attr, data_ids d = Some attr ->
     getComparisonIds d = if decide (attr = "") then [] else map trim (split "," attr))
  /\ (data_ids d = None ->
      forall s, query_ids d = Some s -> s <> "" ->
      getComparisonIds d = map trim (split "," s))
  /\ (data_ids d = None ->
      query_ids d = None \/ query_ids d = Some "" ->
      getComparisonIds d = [])
  /\ (forall s, join "," (split "," s) = s
                /\ Forall (fun piece => has_char "," piece = false) (split "," s))
  /\ (forall s, exists l r,
        s = l +:+ trim s +:+ r
        /\ all_space l = true /\ all_space r = true
        /\ (forall c, first_char (trim s) = Some c -> is_space c = false)
        /\ (forall c, last_char (trim s) = Some c -> is_space c = false)).
Proof.
  split.
  { intros attr H. unfold getComparisonIds. rewrite H. simpl.
    destruct (String.eqb_spec attr ""); by case_decide. }
  split.
  { intros Hd s Hq Hs. unfold getComparisonIds, getQueryParams. rewrite Hd, Hq. simpl.
    by destruct (String.eqb_spec s ""). }
  split.
  { intros Hd [Hq|Hq]; unfold getComparisonIds, getQueryParams; by rewrite Hd, Hq. }
  split.
  { intros s. split; [apply (join_split ","%char) | apply split_no_separator]. }
  apply trim_spec.
Qed.

(** A static comparison page opened with [?ids=c,d]: the attribute wins. *)
Lemma comparison_ids_attribute_wins :
  getComparisonIds (Scenario.compare_page (Some "c,d") (Some "a,b")) = ["a"; "b"]
  /\ getQueryParams (Scenario.compare_page (Some "c,d") (Some "a,b")) = ["c"; "d"].
Proof. by vm_compute. Qed.

(** A page without the attribute, opened with [?ids= a, b ,c]. *)
Lemma comparison_ids_from_query :
  getComparisonIds (Scenario.compare_page (Some " a, b ,c") None) = ["a"; "b"; "c"].
Proof.
  rewrite (proj1 (proj2 (comparison_ids_source
                           (Scenario.compare_page (Some " a, b ,c") None)))
             eq_refl " a, b ,c" eq_refl); [by vm_compute | discriminate].
Defined.

(** ** The comparison table on the raw response *)

Section RawResponse.

Implicit Types (ds : dataset) (d : document) (ids : list string) (phones : value).

Lemma find_in_json_objects ds (id : string) :
  find_in_json (map JObj ds) id = Some (find_phone ds id).
Proof.
  unfold find_phone. induction ds as [|p ds IH]; simpl; [done|].
  destruct (has_id id p); [done | exact IH].
Qed.

Lemma resolve_json_objects ids ds :
  resolve_json ids (JArr (map JObj ds)) = Some (resolve ids ds).
Proof.
  unfold resolve_json, resolve.
  assert (mapM (find_json (JArr (map JObj ds))) ids = Some (map (find_phone ds) ids)) as ->;
    [|done].
  induction ids as [|i ids IH]; simpl; [done|].
  rewrite find_in_json_objects. simpl. simpl in IH. by rewrite IH.
Qed.

Lemma resolve_json_not_array ids phones :
  ids <> [] -> (forall es, phones <> JArr es) -> resolve_json ids phones = None.
Proof.
  intros Hids Hna. destruct ids as [|i ids]; [done|].
  unfold resolve_json. simpl. destruct phones; try done. by destruct (Hna elems).
Qed.

Lemma resolve_json_empty ids : resolve_json ids (JArr []) = Some [].
Proof.
  change (JArr []) with (JArr (map JObj [])). rewrite resolve_json_objects.
  f_equal. apply resolve_empty_iff. by apply Forall_forall.
Qed.

Lemma fetchPhonesData_failed (srv : server) :
  (forall data, srv "../data/phones.json" <> Http true (Some data)) ->
  fetchPhonesData srv = JArr [].
Proof.
  intros H. unfold fetchPhonesData.
  destruct (srv "../data/phones.json") as [|[|] [data|]]; try done. by destruct (H data).
Qed.

End RawResponse.

(** X3. On an array of objects the table built from the raw response is the table
    built from the dataset: the typed model loses nothing there. *)
Theorem generateComparisonTable_json_on_dataset (read_back : string -> string)
  (ds : dataset) (d : document) :
  generateComparisonTable_json read_back (JArr (map JObj ds)) d
  = generateComparisonTable read_back ds d
  /\ resolve_json (getComparisonIds d) (JArr (map JObj ds))
     = Some (resolve (getComparisonIds d) ds).
Proof.
  split; [|apply resolve_json_objects].
  unfold generateComparisonTable_json, generateComparisonTable.
  by rewrite resolve_json_objects.
Qed.

(** X4. A failed fetch is not reported as such. With a non-empty request on a page
    that has its mount points, the render after a network failure, an error
    status or a body that is not JSON shows the message for unknown
    identifiers, and never the message of the [catch] block. *)
Theorem failed_fetch_shows_unknown_ids (read_back : string -> string)
  (srv : server) (d : document) (hdr body : string) (m : message_el) :
  (forall data, srv "../data/phones.json" <> Http true (Some data)) ->
  header_row d = Some hdr -> table_body d = Some body -> error_message d = Some m ->
  getComparisonIds d <> [] ->
  load_comparison read_back srv d
  = Returned (set_table_body not_found_placeholder
                (set_error_message (mkMessage not_found_message "block") d)).
Proof.
  intros Hfail Hh Hb He Hids. unfold load_comparison.
  rewrite (fetchPhonesData_failed _ Hfail).
  unfold generateComparisonTable_json. rewrite Hh, Hb, resolve_json_empty.
  rewrite (length_zero_eqb_false _ Hids). simpl.
  unfold with_error_message. rewrite He. simpl. reflexivity.
Qed.

Lemma failed_fetch_scenario :
  load_comparison Scenario.as_assigned (Scenario.always NetworkError)
    (Scenario.compare_page (Some "a,b") None)
  = Returned (set_table_body not_found_placeholder
                (set_error_message (mkMessage not_found_message "block")
                   (Scenario.compare_page (Some "a,b") None))).
Proof.
  apply (failed_fetch_shows_unknown_ids Scenario.as_assigned (Scenario.always NetworkError)
           (Scenario.compare_page (Some "a,b") None) "" "" (mkMessage "" "none")).
  - intros data. discriminate.
  - reflexivity.
  - reflexivity.
  - reflexivity.
  - vm_compute. discriminate.
Defined.

(** X5. The two loaders accept disjoint formats. A body in which [loadPhones]
    finds a truthy [items] is not an array, so the comparison table, asked for
    at least one identifier, ends in its [catch] block with the loading error;
    and a body from which the table resolves a record has no [items] for
    [loadPhones]. *)
Theorem loaders_accept_disjoint_formats (read_back : string -> string)
  (data : value) (d : document)
  (hdr body : string) (m : message_el) :
  header_row d = Some hdr -> table_body d = Some body -> error_message d = Some m ->
  getComparisonIds d <> [] ->
  (truthy (get_opt data "items") = true ->
   generateComparisonTable_json read_back data d
   = Returned (set_table_body (placeholder_row "Error loading data.")
                 (set_error_message
                    (mkMessage "Error loading comparison data. Please try again." "block") d)))
  /\ (forall sel, resolve_json (getComparisonIds d) data = Some sel ->
        get_opt data "items" = JUndefined).
Proof.
  intros Hh Hb He Hids. split.
  - intros Hitems. unfold generateComparisonTable_json. rewrite Hh, Hb.
    rewrite (length_zero_eqb_false _ Hids).
    rewrite resolve_json_not_array; [|done|by intros es ->].
    simpl. unfold on_error, with_error_message. rewrite He. simpl. reflexivity.
  - intros sel Hsel. destruct data; try reflexivity.
    rewrite resolve_json_not_array in Hsel; [done | done | by intros es].
Qed.

Lemma loaders_scenario :
  generateComparisonTable_json Scenario.as_assigned
    (JObj [("items", JArr [JObj Scenario.acme])])
    (Scenario.compare_page (Some "a") None)
  = Returned (set_table_body (placeholder_row "Error loading data.")
                (set_error_message
                   (mkMessage "Error loading comparison data. Please try again." "block")
                   (Scenario.compare_page (Some "a") None))).
Proof.
  refine (proj1 (loaders_accept_disjoint_formats Scenario.as_assigned
                   (JObj [("items", JArr [JObj Scenario.acme])])
                   (Scenario.compare_page (Some "a") None) "" "" (mkMessage "" "none")
                   eq_refl eq_refl eq_refl _) eq_refl).
  vm_compute. discriminate.
Defined.

(** ** The list of available phones *)

Section PhonesList.





End PhonesList.



(** ** Robots and canonical tags *)

Section Attributes.

Implicit Types (k v : string) (attrs : list (string * string)).

Lemma getAttribute_set k v attrs : getAttribute k (setAttribute k v attrs) = Some v.
Proof.
  induction attrs as [|[k' v'] attrs IH]; simpl.
  - by rewrite String.eqb_refl.
  - destruct (String.eqb_spec k k') as [<-|Hne]; simpl.
    + by rewrite String.eqb_refl.
    + destruct (String.eqb_spec k k'); [done | exact IH].
Qed.

Lemma getAttribute_set_other k k' v attrs :
  k' <> k -> getAttribute k' (setAttribute k v attrs) = getAttribute k' attrs.
Proof.
  intros Hne. induction attrs as [|[k0 v0] attrs IH]; simpl.
  - destruct (String.eqb_spec k' k); [done | reflexivity].
  - destruct (String.eqb_spec k k0) as [<-|Hk]; simpl.
    + destruct (String.eqb_spec k' k); [done | reflexivity].
    + by rewrite IH.
Qed.

Lemma setAttribute_twice k v attrs :
  setAttribute k v (setAttribute k v attrs) = setAttribute k v attrs.
Proof.
  induction attrs as [|[k' v'] attrs IH]; simpl.
  - by rewrite String.eqb_refl.
  - destruct (String.eqb_spec k k') as [<-|Hne]; simpl.
    + by rewrite String.eqb_refl.
    + destruct (String.eqb_spec k k'); [done | by rewrite IH].
Qed.

End Attributes.

Section EnsureAndSet.

Variable test : head_el -> bool.
Variable fresh : head_el.
Variables k v : string.

Hypothesis test_fresh : test fresh = true.
Hypothesis test_stable :
  forall e, test (mkEl (el_tag e) (setAttribute k v (el_attrs e))) = test e.

Implicit Types (els : list head_el).

Lemma update_first_absent els : existsb test els = false -> update_first test k v els = els.
Proof.
  induction els as [|e els IH]; simpl; [done|].
  destruct (test e); simpl; [done|]. intros H. by rewrite IH.
Qed.

Lemma update_first_find els :
  existsb test els = true ->
  exists e, List.find test (update_first test k v els) = Some e
            /\ getAttribute k (el_attrs e) = Some v.
Proof.
  induction els as [|e els IH]; simpl; [done|].
  destruct (test e) eqn:He; simpl.
  - intros _. rewrite test_stable, He. eexists. split; [done|]. apply getAttribute_set.
  - rewrite He. exact IH.
Qed.

Lemma update_first_twice els :
  update_first test k v (update_first test k v els) = update_first test k v els.
Proof.
  induction els as [|e els IH]; simpl; [done|].
  destruct (test e) eqn:He; simpl.
  - rewrite test_stable, He. simpl. by rewrite setAttribute_twice.
  - by rewrite He, IH.
Qed.

Lemma update_first_existsb els :
  existsb test (update_first test k v els) = existsb test els.
Proof.
  induction els as [|e els IH]; simpl; [done|].
  destruct (test e) eqn:He; simpl.
  - by rewrite test_stable, He.
  - by rewrite He, IH.
Qed.

Lemma update_first_matching els :
  length (List.filter test (update_first test k v els)) = length (List.filter test els).
Proof.
  induction els as [|e els IH]; simpl; [done|].
  destruct (test e) eqn:He; simpl.
  - by rewrite test_stable, He.
  - by rewrite He, IH.
Qed.

Lemma update_first_others els :
  List.filter (fun e => negb (test e)) (update_first test k v els)
  = List.filter (fun e => negb (test e)) els.
Proof.
  induction els as [|e els IH]; simpl; [done|].
  destruct (test e) eqn:He; simpl.
  - by rewrite test_stable, He.
  - rewrite He. simpl. by rewrite IH.
Qed.

Lemma existsb_app_fresh els : existsb test (els ++ [fresh]) = true.
Proof. rewrite existsb_app. simpl. rewrite test_fresh. by destruct (existsb test els). Qed.

Lemma ensure_existsb els : existsb test (ensure_and_set test fresh k v els) = true.
Proof.
  unfold ensure_and_set. rewrite update_first_existsb.
  destruct (existsb test els) eqn:E; [done | apply existsb_app_fresh].
Qed.

Lemma ensure_find els :
  exists e, List.find test (ensure_and_set test fresh k v els) = Some e
            /\ getAttribute k (el_attrs e) = Some v.
Proof.
  unfold ensure_and_set. apply update_first_find.
  destruct (existsb test els) eqn:E; [done | apply existsb_app_fresh].
Qed.

Lemma ensure_twice els :
  ensure_and_set test fresh k v (ensure_and_set test fresh k v els)
  = ensure_and_set test fresh k v els.
Proof.
  unfold ensure_and_set at 1. rewrite ensure_existsb.
  unfold ensure_and_set. apply update_first_twice.
Qed.

Lemma filter_none els : existsb test els = false -> List.filter test els = [].
Proof.
  induction els as [|e els IH]; simpl; [done|].
  destruct (test e); simpl; [done | exact IH].
Qed.

Lemma filter_some els : existsb test els = true -> 1 <= length (List.filter test els).
Proof.
  induction els as [|e els IH]; simpl; [done|].
  destruct (test e); simpl; [lia | exact IH].
Qed.

Lemma ensure_matching els :
  length (List.filter test (ensure_and_set test fresh k v els))
  = Nat.max 1 (length (List.filter test els)).
Proof.
  unfold ensure_and_set. rewrite update_first_matching.
  destruct (existsb test els) eqn:E.
  - pose proof (filter_some _ E). lia.
  - rewrite List.filter_app, length_app, (filter_none _ E). simpl.
    by rewrite test_fresh.
Qed.

Lemma ensure_others els :
  List.filter (fun e => negb (test e)) (ensure_and_set test fresh k v els)
  = List.filter (fun e => negb (test e)) els.
Proof.
  unfold ensure_and_set. rewrite update_first_others.
  destruct (existsb test els); [done|].
  rewrite List.filter_app. simpl. rewrite test_fresh. simpl. apply app_nil_r.
Qed.

End EnsureAndSet.

Lemma is_canonical_stable (v : string) (e : head_el) :
  is_canonical (mkEl (el_tag e) (setAttribute "href" v (el_attrs e))) = is_canonical e.
Proof. unfold is_canonical. simpl. by rewrite getAttribute_set_other. Qed.

Lemma is_robots_stable (v : string) (e : head_el) :
  is_robots (mkEl (el_tag e) (setAttribute "content" v (el_attrs e))) = is_robots e.
Proof. unfold is_robots. simpl. by rewrite getAttribute_set_other. Qed.

(** X7. After [setCanonicalUrl] the first canonical link of the document carries
    the origin followed by the path, without the query; a second call changes
    nothing; a link is added only when there was none, so their number never
    grows beyond the larger of one and what it was; and every other element is
    left as it was. *)
Theorem setCanonicalUrl_sets_one_link (p : seo_page) :
  (exists e, List.find is_canonical (head_els (setCanonicalUrl p)) = Some e
             /\ getAttribute "href" (el_attrs e) = Some (origin p +:+ pathname p))
  /\ setCanonicalUrl (setCanonicalUrl p) = setCanonicalUrl p
  /\ length (List.filter is_canonical (head_els (setCanonicalUrl p)))
     = Nat.max 1 (length (List.filter is_canonical (head_els p)))
  /\ List.filter (fun e => negb (is_canonical e)) (head_els (setCanonicalUrl p))
     = List.filter (fun e => negb (is_canonical e)) (head_els p).
Proof.
  unfold setCanonicalUrl. simpl. split.
  { apply ensure_find; [done | apply is_canonical_stable]. }
  split.
  { unfold with_head. simpl. f_equal.
    apply ensure_twice; [done | apply is_canonical_stable]. }
  split.
  { apply ensure_matching; [done | apply is_canonical_stable]. }
  apply ensure_others; [done | apply is_canonical_stable].
Qed.

(** X8. [setRobotsMeta] marks a page [noindex, follow] exactly when its URL has a
    query and no element carries [data-ids]: then the first robots tag holds
    that content, created if there was none; on any other page nothing is
    touched, an existing robots tag included. A second call changes nothing,
    and elements other than robots tags are never changed. *)
Theorem setRobotsMeta_marks_query_pages (p : seo_page) :
  (hasQueryParams p = true -> has_data_ids p = false ->
     exists e, List.find is_robots (head_els (setRobotsMeta p)) = Some e
               /\ getAttribute "content" (el_attrs e) = Some "noindex, follow")
  /\ (search p = "" \/ has_data_ids p = true -> setRobotsMeta p = p)
  /\ setRobotsMeta (setRobotsMeta p) = setRobotsMeta p
  /\ length (List.filter is_robots (head_els (setRobotsMeta p)))
     <= Nat.max 1 (length (List.filter is_robots (head_els p)))
  /\ List.filter (fun e => negb (is_robots e)) (head_els (setRobotsMeta p))
     = List.filter (fun e => negb (is_robots e)) (head_els p).
Proof.
  unfold setRobotsMeta, isProgrammaticPage. split.
  { intros -> ->. simpl. apply ensure_find; [done | apply is_robots_stable]. }
  split.
  { intros [Hs | ->].
    - unfold hasQueryParams. by rewrite Hs.
    - by rewrite andb_false_r. }
  destruct (hasQueryParams p && negb (has_data_ids p)) eqn:Hc.
  - split.
    { unfold hasQueryParams in *. simpl. rewrite Hc. unfold with_head. simpl. f_equal.
      apply ensure_twice; [done | apply is_robots_stable]. }
    split.
    { simpl. rewrite ensure_matching; [lia | done | apply is_robots_stable]. }
    simpl. apply ensure_others; [done | apply is_robots_stable].
  - rewrite Hc. split; [done|]. split; [lia | done].
Qed.

(** ** The comparison builder *)

(** The state of the error box in one case of the validation. *)
Local Ltac box_case :=
  let m := fresh "m" in
  intros m ->; simpl; try case_bool_decide; try done; exfalso; naive_solver.

(** X12. On a page that has both selectors and the compare button,
    [validatePhoneSelection] enables the button exactly when two different
    phones are selected, and shows the error box exactly when the same phone
    is selected twice (otherwise it hides the box and keeps its text); the
    selections are not changed and a second call changes nothing. *)
Theorem validatePhoneSelection_enables_distinct_pairs
  (b : builder) (val1 val2 : string) (was : bool) :
  select1 b = Some val1 -> select2 b = Some val2 -> compare_disabled b = Some was ->
  (compare_disabled (validatePhoneSelection b) = Some false <->
     val1 <> "" /\ val2 <> "" /\ val1 <> val2)
  /\ (forall m, builder_error b = Some m ->
        builder_error (validatePhoneSelection b)
        = Some (if bool_decide (val1 <> "" /\ val1 = val2)
                then mkMessage same_phone "block"
                else mkMessage (textContent m) "none"))
  /\ select1 (validatePhoneSelection b) = Some val1
  /\ select2 (validatePhoneSelection b) = Some val2
  /\ validatePhoneSelection (validatePhoneSelection b) = validatePhoneSelection b.
Proof.
  intros H1 H2 Hd. destruct b as [s1 s2 cd err]. simpl in *. subst.
  unfold validatePhoneSelection. simpl.
  destruct (String.eqb val1 "") eqn:E1, (String.eqb val2 "") eqn:E2,
           (String.eqb val1 val2) eqn:E3;
    simpl; rewrite ?E1, ?E2, ?E3; simpl;
    (apply String.eqb_eq in E1 || apply String.eqb_neq in E1);
    (apply String.eqb_eq in E2 || apply String.eqb_neq in E2);
    (apply String.eqb_eq in E3 || apply String.eqb_neq in E3);
    (split; [naive_solver|]); (split; [box_case|]);
    do 2 (split; [done|]); by destruct err.
Qed.

Lemma validatePhoneSelection_scenario :
  compare_disabled
    (validatePhoneSelection
       (mkBuilder (Some "a") (Some "b") (Some true) (Some (mkMessage "" "block"))))
  = Some false.
Proof.
  apply (proj1 (validatePhoneSelection_enables_distinct_pairs
                  (mkBuilder (Some "a") (Some "b") (Some true) (Some (mkMessage "" "block")))
                  "a" "b" true eq_refl eq_refl eq_refl)).
  repeat split; discriminate.
Defined.

(** X13. The click on the compare button and the validation agree: the click
    pushes a URL exactly when the validation leaves the button enabled, the
    URL is [?ids=] followed by the two selected values separated by a comma,
    and the click never touches the button. A click that pushes no URL shows
    an error when the page has the error box; one that pushes a URL hides
    it. *)
Theorem compare_click_agrees_with_validation
  (b : builder) (val1 val2 : string) (was : bool) :
  select1 b = Some val1 -> select2 b = Some val2 -> compare_disabled b = Some was ->
  (is_Some (snd (on_compare_click b)) <->
     compare_disabled (validatePhoneSelection b) = Some false)
  /\ (forall url, snd (on_compare_click b) = Some url ->
        url = "?ids=" +:+ val1 +:+ "," +:+ val2)
  /\ compare_disabled (fst (on_compare_click b)) = Some was
  /\ (forall m, builder_error b = Some m ->
        exists m', builder_error (fst (on_compare_click b)) = Some m'
                   /\ (display m' = "block" <-> snd (on_compare_click b) = None)
                   /\ (display m' = "none" <-> is_Some (snd (on_compare_click b)))).
Proof.
  intros H1 H2 Hd. destruct b as [s1 s2 cd err]. simpl in *. subst.
  unfold on_compare_click, validatePhoneSelection. simpl.
  destruct (String.eqb val1 "") eqn:E1, (String.eqb val2 "") eqn:E2,
           (String.eqb val1 val2) eqn:E3;
    simpl;
    (split; [split; [try (by intros [? ?]); done | try done; by eexists]|]);
    (split; [try done; by intros url [= <-]|]); (split; [done|]);
    intros m ->; simpl; eexists; (split; [done|]); simpl;
    (split; [done|]); split; try done; try (by intros [? ?]); by eexists.
Qed.

Lemma compare_click_scenario :
  snd (on_compare_click (mkBuilder (Some "a") (Some "b") (Some false) None))
  = Some "?ids=a,b".
Proof.
  destruct (on_compare_click (mkBuilder (Some "a") (Some "b") (Some false) None))
    as [b' [url|]] eqn:E.
  - simpl. f_equal.
    apply (proj1 (proj2 (compare_click_agrees_with_validation
                           (mkBuilder (Some "a") (Some "b") (Some false) None)
                           "a" "b" false eq_refl eq_refl eq_refl)) url).
    by rewrite E.
  - vm_compute in E. discriminate E.
Defined.

(** ** More on identifier lists *)

Section Pieces.

Implicit Types (s t : string) (c sep : ascii) (L : list string).

Lemma split_comma_free sep s : has_char sep s = false -> split sep s = [s].
Proof.
  induction s as [|c s IH]; simpl; [done|].
  rewrite (Ascii.eqb_sym sep c).
  destruct (Ascii.eqb c sep); simpl; [done|]. intros H. by rewrite IH.
Qed.

Lemma split_app_sep sep s t :
  has_char sep s = false ->
  split sep (s +:+ String sep t) = s :: split sep t.
Proof.
  induction s as [|c s IH]; simpl.
  - intros _. by rewrite Ascii.eqb_refl.
  - rewrite (Ascii.eqb_sym sep c).
    destruct (Ascii.eqb c sep); simpl; [done|]. intros H. by rewrite IH.
Qed.

(** Splitting undoes joining when no piece holds the separator. *)
Lemma split_join sep L :
  L <> [] -> Forall (fun piece => has_char sep piece = false) L ->
  split sep (join (String sep "") L) = L.
Proof.
  induction L as [|s L IH]; [done|]. intros _ Hall.
  apply Forall_cons in Hall as [Hs HL].
  destruct L as [|t L].
  - simpl. by apply split_comma_free.
  - change (join (String sep "") (s :: t :: L))
      with (s +:+ String sep (join (String sep "") (t :: L))).
    rewrite split_app_sep by done. f_equal. by apply IH.
Qed.

Lemma split_length sep s : length (split sep s) = S (count_char sep s).
Proof.
  induction s as [|c s IH]; simpl; [done|].
  destruct (Ascii.eqb c sep); simpl; [by rewrite IH|].
  destruct (split_cons sep s) as (piece & pieces & E). rewrite E in *. simpl in *. lia.
Qed.

Lemma trimStart_fixed s :
  (forall c, first_char s = Some c -> is_space c = false) -> trimStart s = s.
Proof.
  destruct s as [|c s]; [done|]. simpl. intros H. by rewrite (H c).
Qed.

Lemma trimEnd_fixed s :
  (forall c, last_char s = Some c -> is_space c = false) -> trimEnd s = s.
Proof.
  induction s as [|c s IH]; [done|]. intros H. simpl.
  destruct s as [|c' s].
  - simpl. by rewrite (H c).
  - rewrite IH; [done|]. intros c0 Hc0. apply H. exact Hc0.
Qed.

Lemma trim_trim s : trim (trim s) = trim s.
Proof.
  destruct (trim_spec s) as (l & r & _ & _ & _ & Hfirst & Hlast).
  unfold trim at 1. rewrite (trimStart_fixed _ Hfirst). by apply trimEnd_fixed.
Qed.

Lemma split_ids_nil (ids : option string) :
  split_ids ids = [] <-> ids = None \/ ids = Some "".
Proof.
  destruct ids as [s|]; simpl; [|naive_solver].
  destruct (String.eqb_spec s "") as [->|Hne]; [naive_solver|].
  destruct (split_cons "," s) as (piece & pieces & E). rewrite E. simpl.
  split; [done|]. intros [?|[= ?]]; done.
Qed.

End Pieces.

(** X10. The request is empty only when its source is absent or the empty string:
    a parameter made of commas or blanks alone is a non-empty request, of
    empty identifiers. Every identifier comes out trimmed, and a non-empty
    source gives one identifier more than it has commas. *)
Theorem identifier_list_shape (d : document) :
  (getComparisonIds d = [] <->
     data_ids d = Some ""
     \/ (data_ids d = None /\ (query_ids d = None \/ query_ids d = Some "")))
  /\ Forall (fun id => trim id = id) (getComparisonIds d)
  /\ (forall s,
        data_ids d = Some s \/ (data_ids d = None /\ query_ids d = Some s) ->
        s <> "" ->
        length (getComparisonIds d) = S (count_char "," s)).
Proof.
  unfold getComparisonIds, getQueryParams. split.
  { destruct (data_ids d) as [a|]; rewrite split_ids_nil; naive_solver. }
  split.
  { assert (forall ids, Forall (fun id => trim id = id) (split_ids ids)) as H.
    { intros [s|]; simpl; [|constructor].
      destruct (String.eqb s ""); [constructor|].
      apply List.Forall_forall. intros id Hid.
      apply List.in_map_iff in Hid as (piece & <- & _). apply trim_trim. }
    destruct (data_ids d); apply H. }
  intros s Hs Hne.
  assert (split_ids (Some s) = map trim (split "," s)) as E.
  { simpl. by destruct (String.eqb_spec s ""). }
  destruct Hs as [-> | [-> ->]]; rewrite E, length_map; apply split_length.
Qed.

(** X11. Identifiers joined with commas come back from the parameter: a non-empty
    list of identifiers that hold no comma, other than the single empty
    identifier, is read back piece by piece, each trimmed; so identifiers
    without surrounding blanks come back unchanged. The single empty
    identifier is read back as the empty request. *)
Theorem joined_identifiers_round_trip (L : list string) :
  L <> [] -> L <> [""] ->
  Forall (fun id => has_char "," id = false) L ->
  split_ids (Some (join "," L)) = map trim L
  /\ (Forall (fun id => trim id = id) L -> split_ids (Some (join "," L)) = L)
  /\ split_ids (Some (join "," [""])) = [].
Proof.
  intros Hne Hne' Hfree.
  assert (join "," L <> "") as Hjoin.
  { destruct L as [|s [|t L]]; [done| |].
    - simpl. intros ->. done.
    - change (join "," (s :: t :: L)) with (s +:+ String ","%char (join "," (t :: L))).
      by destruct s. }
  assert (split_ids (Some (join "," L)) = map trim L) as E.
  { simpl. destruct (String.eqb_spec (join "," L) ""); [done|].
    f_equal. by apply (split_join ","%char). }
  split; [exact E|]. split; [|reflexivity].
  intros Htrim. rewrite E. clear -Htrim.
  induction L as [|s L IH]; [done|].
  apply Forall_cons in Htrim as [Hs HL]. simpl. by rewrite Hs, IH.
Qed.

Lemma joined_identifiers_scenario :
  split_ids (Some (join "," ["google-pixel-10"; " google-pixel-10-pro "]))
  = ["google-pixel-10"; "google-pixel-10-pro"].
Proof.
  refine (eq_trans (proj1 (joined_identifiers_round_trip
                             ["google-pixel-10"; " google-pixel-10-pro "] _ _ _)) _).
  - discriminate.
  - discriminate.
  - repeat constructor.
  - by vm_compute.
Defined.

(** ** More on the index-page filter *)

Section FilterLaws.

Implicit Types (s t u : string) (i : record).

Lemma string_app_assoc s t u : (s +:+ t) +:+ u = s +:+ (t +:+ u).
Proof.
  induction s as [|c s IH]; [done|].
  change (String c ((s +:+ t) +:+ u) = String c (s +:+ t +:+ u)). by rewrite IH.
Qed.

Lemma lower_char_twice (c : ascii) : lower_char (lower_char c) = lower_char c.
Proof. destruct c as [[] [] [] [] [] [] [] []]; by vm_compute. Qed.

Lemma toLowerCase_twice s : toLowerCase (toLowerCase s) = toLowerCase s.
Proof. induction s as [|c s IH]; simpl; [done|]. by rewrite lower_char_twice, IH. Qed.

Lemma matches_eq_iff (q q' b b' : string) i :
  (matches q b i = true <-> matches q' b' i = true) -> matches q b i = matches q' b' i.
Proof. destruct (matches q b i), (matches q' b' i); naive_solver. Qed.

End FilterLaws.

(** X15. The filter does not see the case of the query; a query that occurs in
    another, case aside, matches every record the longer one matches, so
    typing more characters never adds a card; and choosing "All brands" never
    removes one. *)
Theorem matches_query_laws (q brand : string) (i : record) :
  matches q brand i = matches (toLowerCase q) brand i
  /\ (forall shorter pre post,
        toLowerCase q = pre +:+ toLowerCase shorter +:+ post ->
        matches q brand i = true -> matches shorter brand i = true)
  /\ (matches q brand i = true -> matches q "" i = true).
Proof.
  split.
  { apply matches_eq_iff. rewrite !matches_spec, toLowerCase_twice.
    rewrite toLowerCase_empty.
    assert (toLowerCase q = "" <-> q = "") as Hq by apply toLowerCase_empty.
    naive_solver. }
  split.
  { intros shorter pre post Hsub. rewrite !matches_spec. intros [Hb Hq].
    split; [exact Hb|]. destruct Hq as [-> | (pre' & post' & Hhay)].
    - left. simpl in Hsub. apply toLowerCase_empty.
      destruct pre; [|done]. simpl in Hsub. by destruct (toLowerCase shorter).
    - right. exists (pre' +:+ pre), (post +:+ post').
      rewrite Hhay, Hsub. by rewrite !string_app_assoc. }
  rewrite !matches_spec. intros [_ Hq]. split; [by left | exact Hq].
Qed.

(** ** Cards and the grid *)

Section CardFacts.

Variable dv : value -> bool.
Variable tl : value -> string.

Lemma labelled_eq (label : string) (v : value) :
  labelled label v =
  match v with
  | JStr s => Some (Elem "div" [] [Elem "b" [] [Text label]; Text s])
  | _ => None
  end.
Proof. by destruct v. Qed.

Lemma badge_eq (v : value) :
  el "span" [("class", "badge")] [ChildValue v] =
  match v with
  | JStr s => Some (Elem "span" [("class", "badge")] [Text s])
  | _ => None
  end.
Proof. by destruct v. Qed.

Lemma card_is_Some (i : record) :
  is_Some (card dv tl i) <->
  is_string (lookup_prop "brand" i) = true
  /\ is_string (formatDate dv tl (lookup_prop "release_date" i)) = true
  /\ is_string (or_dash (get_opt (lookup_prop "chipset" i) "name")) = true
  /\ has_lone_surrogate (ToString (lookup_prop "id" i)) = false.
Proof.
  unfold card, encodeURIComponent. cbv zeta. rewrite !labelled_eq, badge_eq.
  generalize (formatDate dv tl (lookup_prop "release_date" i)) as release.
  generalize (or_dash (get_opt (lookup_prop "chipset" i) "name")) as chipset.
  generalize (lookup_prop "brand" i) as brand.
  generalize (trim (display_name i)) as name.
  intros name brand chipset release.
  destruct (has_lone_surrogate (ToString (lookup_prop "id" i)));
    [simpl; split; [by intros [? ?] | by intros (_ & _ & _ & ?)]|].
  destruct brand; try (simpl; split; [by intros [? ?] | by intros (? & _)]).
  destruct release; try (simpl; split; [by intros [? ?] | by intros (_ & ? & _)]).
  destruct chipset; try (simpl; split; [by intros [? ?] | by intros (_ & _ & ? & _)]).
  all: simpl; split; [done | intros _; by eexists].
Qed.



(** What [append_cards] leaves: the cards of the records before the first
    whose card cannot be built, after the cards already there. *)
Lemma append_cards_spec (l : list record) (pg : page) :
  exists shown rest cards,
    l = shown ++ rest
    /\ mapM (card dv tl) shown = Some cards
    /\ final (append_cards dv tl l pg)
       = mkPage (q_value pg) (brand_value pg) (count_text pg) (grid pg ++ cards)
    /\ ((rest = [] /\ exists pg', append_cards dv tl l pg = Returned pg')
        \/ (exists i rest', rest = i :: rest' /\ card dv tl i = None
                            /\ exists pg', append_cards dv tl l pg = Thrown pg')).
Proof.
  revert pg. induction l as [|i l IH]; intros pg.
  - exists [], [], []. simpl. rewrite app_nil_r. repeat split; [by destruct pg|].
    left. split; [done | by eexists].
  - simpl. destruct (card dv tl i) as [n|] eqn:Hi.
    + destruct (IH (mkPage (q_value pg) (brand_value pg) (count_text pg) (grid pg ++ [n])))
        as (shown & rest & cards & -> & Hm & Hfin & Hcase).
      exists (i :: shown), rest, (n :: cards). split; [done|]. split.
      { simpl. rewrite Hi. simpl. by rewrite Hm. }
      split; [rewrite Hfin; simpl; by rewrite <- app_assoc | exact Hcase].
    + exists [], (i :: l), []. simpl. rewrite app_nil_r. repeat split; [by destruct pg|].
      right. exists i, l. repeat split; [done|]. by eexists.
Qed.

Lemma repaint_controls (items : dataset) (pg : page) :
  q_value (final (repaint dv tl items pg)) = q_value pg
  /\ brand_value (final (repaint dv tl items pg)) = brand_value pg.
Proof.
  unfold repaint.
  destruct (append_cards_spec (List.filter (matches (q_value pg) (brand_value pg)) items)
              (mkPage (q_value pg) (brand_value pg)
                 (decimal (length (List.filter (matches (q_value pg) (brand_value pg)) items))
                  +:+ " phones") []))
    as (shown & rest & cards & _ & _ & Hfin & _).
  by rewrite Hfin.
Qed.

End CardFacts.


(** A record whose id is a surrogate with no partner: every text of the card
    is a string, and [encodeURIComponent] throws. *)
Example card_lone_surrogate_id (date_valid : value -> bool)
  (toLocaleDateString : value -> string) :
  card date_valid toLocaleDateString
    [ ("id", JStr (String "237" (String "160" (String "128" EmptyString))));
      ("brand", JStr "Acme"); ("model", JStr "X1") ]
  = None.
Proof. reflexivity. Qed.


(** ** The brand selector *)

Section BrandOptions.

Implicit Types (v x : value) (seen arr l : list value) (bs : list string).

Lemma strict_eq_eq v x : strict_eq v x = true -> v = x.
Proof.
  destruct v, x; simpl; try done.
  - intros H. f_equal. by apply Bool.eqb_prop.
  - intros H. f_equal. by apply String.eqb_eq.
  - intros H. f_equal. by apply String.eqb_eq.
Qed.

Lemma in_set_In v seen : in_set v seen = true -> In v seen.
Proof.
  unfold in_set. rewrite existsb_exists. intros (x & Hx & Heq).
  by rewrite (strict_eq_eq _ _ Heq).
Qed.

Lemma in_set_string (s : string) seen : In (JStr s) seen -> in_set (JStr s) seen = true.
Proof.
  intros H. unfold in_set. apply existsb_exists. exists (JStr s).
  split; [done|]. simpl. apply String.eqb_refl.
Qed.

Lemma set_of_In v seen arr : In v (set_of seen arr) -> In v arr.
Proof.
  revert seen. induction arr as [|a arr IH]; intros seen; simpl; [done|].
  destruct (in_set a seen); [by right; eapply IH|].
  intros [->|H]; [by left | right; by eapply IH].
Qed.

Lemma set_of_keeps v seen arr : In v arr -> In v seen \/ In v (set_of seen arr).
Proof.
  revert seen. induction arr as [|a arr IH]; intros seen; simpl; [done|].
  intros [->|Hin].
  - destruct (in_set v seen) eqn:E; [left; by apply in_set_In | right; by left].
  - destruct (in_set a seen) eqn:E; [by apply IH|].
    destruct (IH (a :: seen) Hin) as [[->|?]|?]; [right; by left | by left | right; by right].
Qed.

Lemma set_of_fresh_strings (s : string) seen arr :
  In (JStr s) (set_of seen arr) -> ~ In (JStr s) seen.
Proof.
  revert seen. induction arr as [|a arr IH]; intros seen; simpl; [done|].
  destruct (in_set a seen) eqn:E; [apply IH|].
  intros [->|H] Hseen.
  - by rewrite in_set_string in E.
  - apply (IH _ H). by right.
Qed.

Lemma set_of_NoDup_strings seen arr : NoDup (omap as_string (set_of seen arr)).
Proof.
  revert seen. induction arr as [|a arr IH]; intros seen; simpl; [constructor|].
  destruct (in_set a seen) eqn:E; [apply IH|]. simpl.
  destruct a; simpl; try apply IH.
  constructor; [|apply IH]. rewrite list_elem_of_In. intros Hin.
  assert (In (JStr s) (set_of (JStr s :: seen) arr)) as Hs.
  { clear -Hin. induction (set_of _ arr) as [|x l IHl]; simpl in *; [done|].
    destruct x; simpl in *; auto. destruct Hin as [->|?]; auto. }
  apply (set_of_fresh_strings _ _ _ Hs). by left.
Qed.

Lemma sort_insert_perm x l : sort_insert x l ≡ₚ x :: l.
Proof.
  induction l as [|y l IH]; simpl; [done|].
  destruct (String.ltb _ _); [|done]. rewrite IH. apply Permutation_swap.
Qed.

Lemma sort_perm l : sort l ≡ₚ l.
Proof.
  induction l as [|x l IH]; simpl; [done|].
  rewrite sort_insert_perm. by constructor.
Qed.

Lemma ltb_asym (a b : string) : String.ltb a b = true -> String.ltb b a = false.
Proof.
  unfold String.ltb. rewrite (String.compare_antisym a b).
  by destruct (String.compare b a).
Qed.

Lemma sort_insert_HdRel y x l :
  sort_le y x -> HdRel sort_le y l -> HdRel sort_le y (sort_insert x l).
Proof.
  intros Hyx Hyl. destruct l as [|z l]; simpl; [by constructor|].
  destruct (String.ltb _ _); constructor; [by inversion Hyl | done].
Qed.

Lemma sort_insert_sorted x l : Sorted sort_le l -> Sorted sort_le (sort_insert x l).
Proof.
  induction 1 as [|y l Hl IH Hhd]; simpl; [by repeat constructor|].
  destruct (String.ltb (ToString y) (ToString x)) eqn:E.
  - constructor; [exact IH|]. apply sort_insert_HdRel; [|exact Hhd].
    unfold sort_le. by apply ltb_asym.
  - constructor; [by constructor|]. by constructor.
Qed.

Lemma sort_sorted l : Sorted sort_le (sort l).
Proof.
  induction l as [|x l IH]; simpl; [constructor | by apply sort_insert_sorted].
Qed.

Lemma leb_of_not_ltb (a b : string) : String.ltb b a = false -> String.leb a b = true.
Proof.
  unfold String.ltb, String.leb. rewrite (String.compare_antisym a b).
  by destruct (String.compare b a).
Qed.

Lemma sorted_strings bs :
  Sorted sort_le (map JStr bs) -> Sorted (fun a b => String.leb a b = true) bs.
Proof.
  induction bs as [|a bs IH]; simpl; [constructor|].
  intros H. inversion H as [|? ? Hs Hhd]; subst. constructor; [by apply IH|].
  destruct bs as [|b bs]; simpl in *; [constructor|].
  constructor. inversion Hhd; subst. by apply leb_of_not_ltb.
Qed.

Lemma omap_as_string_strings bs : omap as_string (map JStr bs) = bs.
Proof. induction bs as [|b bs IH]; [done|]. simpl. f_equal. exact IH. Qed.

(** [append_options] returns exactly on a list of strings, with one option
    for each; otherwise it throws at the first value that is not a string. *)
Lemma append_options_strings bs (c : index_controls) :
  append_options (map JStr bs) c
  = Returned (mkControls (brand_options c ++ map (fun b => (b, b)) bs) (controls_page c)).
Proof.
  revert c. induction bs as [|b bs IH]; intros c; simpl.
  - rewrite app_nil_r. by destruct c.
  - rewrite IH. simpl. by rewrite <- app_assoc.
Qed.

Lemma append_options_returned l (c c' : index_controls) :
  append_options l c = Returned c' -> exists bs, l = map JStr bs.
Proof.
  revert c. induction l as [|v l IH]; intros c; simpl.
  - intros _. by exists [].
  - destruct v; try done. intros H. destruct (IH _ H) as [bs ->]. by exists (s :: bs).
Qed.

Lemma append_options_thrown l (c : index_controls) :
  (exists v, In v l /\ is_string v = false) ->
  exists c', append_options l c = Thrown c' /\ controls_page c' = controls_page c.
Proof.
  revert c. induction l as [|v l IH]; intros c; simpl.
  - by intros (? & [] & _).
  - intros (x & Hx & Hns).
    destruct v; try (eexists; split; [reflexivity | done]).
    destruct Hx as [<-|Hx]; [done|].
    destruct (IH (mkControls (brand_options c ++ [(s, s)]) (controls_page c)))
      as (c' & Hc' & Hpg); [by exists x|]. by exists c'.
Qed.

Lemma uniq_In v arr : In v (uniq arr) <-> In v arr /\ truthy v = true.
Proof.
  unfold uniq. rewrite List.filter_In. split.
  - intros [H Ht]. split; [by eapply set_of_In | done].
  - intros [H Ht]. split; [|done].
    destruct (set_of_keeps v [] arr H) as [[]|?]; done.
Qed.

End BrandOptions.

(** X18. When [renderCompare] returns, the selector holds "All brands" followed by
    one option per brand: the non-empty strings that are the brand of some
    record, each once, in ascending order. Choosing any of them with an empty
    query matches at least one record, and the selector is left on "All
    brands". *)
Theorem renderCompare_lists_each_brand_once
  (date_valid : value -> bool) (toLocaleDateString : value -> string)
  (items : dataset) (c c' : index_controls) :
  renderCompare date_valid toLocaleDateString items c = Returned c' ->
  exists bs,
    brand_options c' = ("", "All brands") :: map (fun b => (b, b)) bs
    /\ NoDup bs
    /\ Sorted (fun a b => String.leb a b = true) bs
    /\ (forall b, In b bs <->
                  b <> "" /\ exists i, In i items /\ lookup_prop "brand" i = JStr b)
    /\ (forall b, In b bs -> exists i, In i items /\ matches "" b i = true)
    /\ brand_value (controls_page c') = "".
Proof.
  unfold renderCompare. cbv zeta.
  set (brands := sort (uniq (map (lookup_prop "brand") items))).
  set (c0 := mkControls _ _).
  destruct (append_options brands c0) as [c1|c1] eqn:Hopt; [|done].
  destruct (append_options_returned _ _ _ Hopt) as [bs Hbs].
  rewrite Hbs, append_options_strings in Hopt. injection Hopt as <-.
  assert (forall b, In b bs <->
            b <> "" /\ exists i, In i items /\ lookup_prop "brand" i = JStr b) as Hmem.
  { intros b.
    assert (In b bs <-> In (JStr b) brands) as ->.
    { rewrite Hbs, List.in_map_iff. split; [by exists b|]. by intros (? & [= ->] & ?). }
    unfold brands. rewrite <- !list_elem_of_In, sort_perm, !list_elem_of_In.
    rewrite uniq_In, List.in_map_iff, truthy_JStr. naive_solver. }
  destruct (repaint _ _ _ _) as [pg1|pg1] eqn:Hrep; [|done].
  intros [= <-]. exists bs. simpl. split; [done|]. split.
  { rewrite <- (omap_as_string_strings bs), <- Hbs. unfold brands.
    rewrite sort_perm. unfold uniq.
    eapply sublist_NoDup; [apply set_of_NoDup_strings|].
    apply omap_sublist, filter_sublist. }
  split.
  { apply sorted_strings. rewrite <- Hbs. apply sort_sorted. }
  split; [exact Hmem|]. split.
  { intros b Hb. apply Hmem in Hb as (Hne & i & Hi & Hbrand). exists i.
    split; [done|]. apply matches_empty_query. by right. }
  pose proof (repaint_controls date_valid toLocaleDateString items
                (mkPage (q_value (controls_page c)) "" (count_text (controls_page c))
                   (grid (controls_page c)))) as [_ Hr].
  simpl in Hrep. rewrite Hrep in Hr. exact Hr.
Qed.

Lemma renderCompare_scenario :
  exists bs,
    brand_options
      (final (renderCompare (fun _ => false) (fun _ => "") Scenario.phones
                (mkControls [] (Scenario.index_page "z1" ""))))
    = ("", "All brands") :: map (fun b => (b, b)) bs
    /\ NoDup bs
    /\ Sorted (fun a b => String.leb a b = true) bs
    /\ (forall b, In b bs <->
                  b <> "" /\ exists i, In i Scenario.phones /\ lookup_prop "brand" i = JStr b)
    /\ (forall b, In b bs -> exists i, In i Scenario.phones /\ matches "" b i = true)
    /\ brand_value
         (controls_page
            (final (renderCompare (fun _ => false) (fun _ => "") Scenario.phones
                      (mkControls [] (Scenario.index_page "z1" ""))))) = "".
Proof.
  apply (renderCompare_lists_each_brand_once (fun _ => false) (fun _ => "")
           Scenario.phones (mkControls [] (Scenario.index_page "z1" ""))).
  by vm_compute.
Defined.

Section RenderCompareReturns.

Variable dv : value -> bool.
Variable tl : value -> string.

Lemma all_strings (l : list value) :
  Forall (fun v => is_string v = true) l -> exists bs, l = map JStr bs.
Proof.
  induction 1 as [|v l Hv _ [bs ->]]; [by exists []|].
  destruct v; try done. by exists (s :: bs).
Qed.

Lemma filter_all_match (items : dataset) :
  List.filter (matches "" "") items = items.
Proof.
  induction items as [|i items IH]; [done|]. cbn -[matches].
  assert (matches "" "" i = true) as -> by (apply matches_empty_query; by left).
  by rewrite IH.
Qed.

Lemma repaint_returns_iff (items : dataset) (pg : page) :
  q_value pg = "" -> brand_value pg = "" ->
  (exists pg', repaint dv tl items pg = Returned pg') <->
  Forall (fun i => is_Some (card dv tl i)) items.
Proof.
  intros Hq Hb. unfold repaint. rewrite Hq, Hb, filter_all_match. split.
  - intros [pg' Hr].
    destruct (append_cards_spec dv tl items
                (mkPage "" "" (decimal (length items) +:+ " phones") []))
      as (shown & rest & cards & Hsplit & Hm & _ & Hcase).
    destruct Hcase as [[-> _] | (i & rest' & _ & _ & pgt & Ht)]; [|congruence].
    rewrite app_nil_r in Hsplit. subst shown. clear -Hm.
    revert cards Hm. induction items as [|i items IH]; intros cards; [constructor|].
    simpl. destruct (card dv tl i) as [n|] eqn:Hi; simpl; [|done].
    destruct (mapM (card dv tl) items) as [k|] eqn:Hk; simpl; [|done].
    intros _. constructor; [by eexists | by eapply IH].
  - intros Hall. rewrite (append_cards_built dv tl) by done. by eexists.
Qed.

End RenderCompareReturns.

(** X19. With an empty search box, [renderCompare] returns exactly when the card of
    every record of the dataset can be built. One record whose brand is not a
    string is enough to make it throw. *)
Theorem renderCompare_returns_iff_every_card_builds
  (date_valid : value -> bool) (toLocaleDateString : value -> string)
  (items : dataset) (c : index_controls) :
  q_value (controls_page c) = "" ->
  ((exists c', renderCompare date_valid toLocaleDateString items c = Returned c') <->
   Forall (fun i => is_Some (card date_valid toLocaleDateString i)) items)
  /\ (forall i, In i items -> is_string (lookup_prop "brand" i) = false ->
        exists c', renderCompare date_valid toLocaleDateString items c = Thrown c').
Proof.
  intros Hq.
  assert ((exists c', renderCompare date_valid toLocaleDateString items c = Returned c') <->
          Forall (fun i => is_Some (card date_valid toLocaleDateString i)) items) as Hiff.
  { unfold renderCompare. cbv zeta.
    set (brands := sort (uniq (map (lookup_prop "brand") items))).
    set (c0 := mkControls _ _).
    pose proof (repaint_returns_iff date_valid toLocaleDateString items
                  (mkPage (q_value (controls_page c)) "" (count_text (controls_page c))
                     (grid (controls_page c))) Hq eq_refl) as Hrep.
    split.
    - intros [c' Hc']. apply Hrep.
      destruct (append_options brands c0) as [c1|c1] eqn:Hopt; [|done].
      destruct (append_options_returned _ _ _ Hopt) as [bs Hbs].
      rewrite Hbs, append_options_strings in Hopt. injection Hopt as <-.
      simpl in Hc'. destruct (repaint _ _ _ _) as [pg1|pg1]; [by eexists | done].
    - intros Hall.
      assert (exists bs, brands = map JStr bs) as [bs Hbs].
      { apply all_strings. apply List.Forall_forall. intros v Hv.
        unfold brands in Hv. rewrite <- list_elem_of_In, sort_perm, list_elem_of_In in Hv.
        apply uniq_In in Hv as [Hv _]. apply List.in_map_iff in Hv as (i & <- & Hi).
        pose proof (proj1 (List.Forall_forall _ _) Hall i Hi) as Hcard.
        by apply card_is_Some in Hcard as (? & _). }
      rewrite Hbs, append_options_strings. simpl.
      destruct (proj2 Hrep Hall) as [pg' ->]. by eexists. }
  split; [exact Hiff|].
  intros i Hi Hbrand.
  destruct (renderCompare date_valid toLocaleDateString items c) as [c'|c'] eqn:E;
    [|by eexists].
  assert (Forall (fun i => is_Some (card date_valid toLocaleDateString i)) items) as Hall.
  { apply Hiff. by eexists. }
  pose proof (proj1 (List.Forall_forall _ _) Hall i Hi) as Hcard.
  apply card_is_Some in Hcard as (Hs & _). congruence.
Qed.

Lemma renderCompare_returns_scenario :
  exists c',
    renderCompare (fun _ => false) (fun _ => "") Scenario.phones
      (mkControls [] (Scenario.index_page "" "")) = Returned c'.
Proof.
  apply (proj1 (renderCompare_returns_iff_every_card_builds
                  (fun _ => false) (fun _ => "") Scenario.phones
                  (mkControls [] (Scenario.index_page "" "")) eq_refl)).
  unfold Scenario.phones.
  repeat (apply List.Forall_cons; [vm_compute; by eexists|]). apply List.Forall_nil.
Defined.

(** ** Renders of the comparison table *)

Section Renders.

Implicit Types (d : document) (phones : dataset) (sel : list record) (m : message_el).

(** [updatePageMeta] and [addStructuredData] field by field. *)
Lemma updatePageMeta_fields sel d :
  sel <> [] ->
  updatePageMeta sel d =
  mkDocument (href d) (query_ids d) (data_ids d)
    (match title d with
     | Some _ => Some (join " vs " (map display_name sel) +:+ " – Specs Comparison – SpecLedger")
     | None => None
     end)
    (match meta_description d with
     | Some _ =>
         Some ("Compare " +:+ join " vs " (map display_name sel) +:+
               " side-by-side using official manufacturer specifications. SpecLedger provides specification-based product comparisons.")
     | None => None
     end)
    (match page_title d with
     | Some _ => Some (join " vs " (map display_name sel))
     | None => None
     end)
    (header_row d) (table_body d) (error_message d) (scripts d).
Proof.
  intros Hne. unfold updatePageMeta. rewrite (length_zero_eqb_false _ Hne). cbv zeta.
  destruct d as [hr qi di [t|] [md|] [pt|] h b e sc]; reflexivity.
Qed.

Lemma addStructuredData_fields sel d :
  sel <> [] ->
  addStructuredData sel d =
  mkDocument (href d) (query_ids d) (data_ids d) (title d) (meta_description d)
    (page_title d) (header_row d) (table_body d) (error_message d)
    (match List.find is_product_schema (scripts d) with
     | Some _ => scripts d
     | None => scripts d ++ [mkScript "application/ld+json" (Some "true")
                               (stringify (comparisonSchema sel d))]
     end).
Proof.
  intros Hne. unfold addStructuredData. rewrite (length_zero_eqb_false _ Hne).
  destruct d as [hr qi di t md pt h b e sc]. simpl.
  by destruct (List.find is_product_schema sc).
Qed.

Lemma find_app_none {A} (f : A -> bool) (l : list A) (x : A) :
  List.find f l = None -> f x = true -> List.find f (l ++ [x]) = Some x.
Proof.
  intros Hl Hx. induction l as [|a l IH]; simpl in *; [by rewrite Hx|].
  destruct (f a); [done | by apply IH].
Qed.

Lemma set_error_message_twice m m' d :
  set_error_message m (set_error_message m' d) = set_error_message m d.
Proof. by destruct d. Qed.

Lemma set_table_body_twice (x : string) d :
  set_table_body x (set_table_body x d) = set_table_body x d.
Proof. by destruct d. Qed.

Variable read_back : string -> string.

(** The three regimes of [generateComparisonTable]. *)
Lemma generateComparisonTable_no_mount phones d :
  header_row d = None \/ table_body d = None ->
  generateComparisonTable read_back phones d = Returned d.
Proof.
  unfold generateComparisonTable. intros [-> | ->]; [done|]. by destruct (header_row d).
Qed.

Lemma generateComparisonTable_neutral phones d hdr body :
  header_row d = Some hdr -> table_body d = Some body -> getComparisonIds d = [] ->
  generateComparisonTable read_back phones d = Returned (set_table_body select_placeholder d).
Proof. intros Hh Hb Hids. unfold generateComparisonTable. by rewrite Hh, Hb, Hids. Qed.

Lemma generateComparisonTable_unresolved phones d hdr body :
  header_row d = Some hdr -> table_body d = Some body ->
  getComparisonIds d <> [] -> resolve (getComparisonIds d) phones = [] ->
  generateComparisonTable read_back phones d =
  match error_message d with
  | Some m => Returned (set_table_body not_found_placeholder
                          (set_error_message (mkMessage not_found_message "block") d))
  | None => Thrown d
  end.
Proof.
  intros Hh Hb Hids Hsel. unfold generateComparisonTable.
  rewrite Hh, Hb, Hsel, (length_zero_eqb_false _ Hids). simpl.
  unfold with_error_message. destruct (error_message d) eqn:He; simpl; [done|].
  unfold on_error, with_error_message. by rewrite He.
Qed.

Lemma generateComparisonTable_rendered phones d hdr body :
  header_row d = Some hdr -> table_body d = Some body ->
  resolve (getComparisonIds d) phones <> [] ->
  generateComparisonTable read_back phones d =
  with_error_message (set_display "none")
    (rendered read_back (resolve (getComparisonIds d) phones) d).
Proof.
  intros Hh Hb Hsel.
  rewrite (generateComparisonTable_resolved _ _ _ _ _ Hh Hb Hsel). cbv zeta.
  generalize dependent (resolve (getComparisonIds d) phones). intros sel Hsel.
  f_equal. rewrite (addStructuredData_fields _ _ Hsel).
  rewrite (updatePageMeta_fields _ _ Hsel).
  unfold rendered, set_table_body, set_header_row, comparisonSchema.
  cbn [href query_ids data_ids title meta_description page_title header_row
       table_body error_message scripts].
  reflexivity.
Qed.

Lemma rendered_twice sel d :
  rendered read_back sel (rendered read_back sel d) = rendered read_back sel d.
Proof.
  destruct d as [hr qi di [t|] [md|] [pt|] h b e sc]; unfold rendered;
    cbn [href query_ids data_ids title meta_description page_title header_row
         table_body error_message scripts];
    f_equal;
    (destruct (List.find is_product_schema sc) as [found|] eqn:Hf;
     [by rewrite Hf | by erewrite find_app_none]).
Qed.

Lemma rendered_set_error sel d m :
  rendered read_back sel (set_error_message m d)
  = set_error_message m (rendered read_back sel d).
Proof. by destruct d. Qed.

Lemma with_error_message_rendered_twice sel d :
  with_error_message (set_display "none")
    (rendered read_back sel
       (final (with_error_message (set_display "none") (rendered read_back sel d))))
  = with_error_message (set_display "none") (rendered read_back sel d).
Proof.
  unfold with_error_message at 2 3.
  change (error_message (rendered read_back sel d)) with (error_message d).
  destruct (error_message d) as [m|] eqn:He; cbn [final].
  - rewrite rendered_set_error, rendered_twice. unfold with_error_message.
    change (error_message (set_error_message (set_display "none" m) (rendered read_back sel d)))
      with (Some (set_display "none" m)).
    cbv iota beta. by rewrite set_error_message_twice.
  - rewrite rendered_twice. unfold with_error_message.
    change (error_message (rendered read_back sel d)) with (error_message d). by rewrite He.
Qed.

End Renders.

(** X1. Rendering the comparison table a second time, on the same dataset, leaves
    the page that the first render left and ends the same way: every write of
    the render is an overwrite with a value that depends on the identifiers
    and the dataset only, and the one append is guarded. *)
Theorem generateComparisonTable_idempotent (read_back : string -> string)
  (phones : dataset) (d : document) :
  generateComparisonTable read_back phones (final (generateComparisonTable read_back phones d))
  = generateComparisonTable read_back phones d.
Proof.
  destruct (generateComparisonTable_keeps read_back phones d) as (Hids & _ & Hh' & Hb').
  destruct (header_row d) as [hdr|] eqn:Hh.
  2:{ rewrite (generateComparisonTable_no_mount read_back phones d) by by left.
      simpl. by rewrite generateComparisonTable_no_mount by by left. }
  destruct (table_body d) as [body|] eqn:Hb.
  2:{ rewrite (generateComparisonTable_no_mount read_back phones d) by by right.
      simpl. by rewrite generateComparisonTable_no_mount by by right. }
  destruct (proj2 Hh') as [hdr' Hhdr']; [by eexists|].
  destruct (proj2 Hb') as [body' Hbody']; [by eexists|].
  clear Hh' Hb'.
  destruct (getComparisonIds d) as [|i L] eqn:Eids.
  { rewrite (generateComparisonTable_neutral _ _ _ _ _ Hhdr' Hbody' Hids).
    rewrite (generateComparisonTable_neutral _ _ _ _ _ Hh Hb Eids). simpl.
    by rewrite set_table_body_twice. }
  assert (getComparisonIds d <> []) as Hne by by rewrite Eids.
  rewrite <- Eids in *. clear Eids.
  assert (getComparisonIds (final (generateComparisonTable read_back phones d)) <> []) as Hne'
    by by rewrite Hids.
  destruct (resolve (getComparisonIds d) phones) as [|p sel] eqn:Hsel.
  - rewrite (generateComparisonTable_unresolved _ _ _ _ _ Hhdr' Hbody' Hne')
      by by rewrite Hids.
    rewrite (generateComparisonTable_unresolved _ _ _ _ _ Hh Hb Hne Hsel).
    destruct (error_message d) as [m|] eqn:He; simpl; [reflexivity | by rewrite He].
  - assert (resolve (getComparisonIds d) phones <> []) as Hres by by rewrite Hsel.
    rewrite (generateComparisonTable_rendered _ _ _ _ _ Hhdr' Hbody')
      by by rewrite Hids.
    rewrite Hids.
    rewrite (generateComparisonTable_rendered _ _ _ _ _ Hh Hb Hres).
    generalize (resolve (getComparisonIds d) phones) as chosen. intros chosen.
    apply with_error_message_rendered_twice.
Qed.


(** ** Page metadata *)

(** X9. [updatePageMeta] only overwrites: it never creates a title, description
    or heading that the page lacks, a later call with a non-empty list wins
    over an earlier one, and a repeated call changes nothing. For a non-empty
    list the heading becomes the names of the phones joined by " vs ". The
    table, the error box, the scripts and the identifier sources are left
    alone, and an empty list changes nothing at all. *)
Theorem updatePageMeta_only_overwrites (sel later : list record) (d : document) :
  updatePageMeta [] d = d
  /\ (later <> [] -> updatePageMeta later (updatePageMeta sel d) = updatePageMeta later d)
  /\ updatePageMeta sel (updatePageMeta sel d) = updatePageMeta sel d
  /\ (is_Some (title (updatePageMeta sel d)) <-> is_Some (title d))
  /\ (is_Some (meta_description (updatePageMeta sel d)) <-> is_Some (meta_description d))
  /\ (is_Some (page_title (updatePageMeta sel d)) <-> is_Some (page_title d))
  /\ (sel <> [] -> is_Some (page_title d) ->
      page_title (updatePageMeta sel d) = Some (join " vs " (map display_name sel)))
  /\ (header_row (updatePageMeta sel d) = header_row d
      /\ table_body (updatePageMeta sel d) = table_body d
      /\ error_message (updatePageMeta sel d) = error_message d
      /\ scripts (updatePageMeta sel d) = scripts d
      /\ getComparisonIds (updatePageMeta sel d) = getComparisonIds d).
Proof.
  assert (forall x y : string, is_Some (Some x) <-> is_Some (Some y)) as Hsome.
  { intros x y. split; intros _; by eexists. }
  split; [reflexivity|].
  assert (forall chosen, chosen <> [] ->
            updatePageMeta chosen (updatePageMeta sel d) = updatePageMeta chosen d) as Hover.
  { intros chosen Hne. rewrite !(updatePageMeta_fields chosen) by done.
    destruct sel as [|p rest]; [reflexivity|].
    rewrite (updatePageMeta_fields (p :: rest)) by done.
    cbn [href query_ids data_ids title meta_description page_title header_row
         table_body error_message scripts].
    by destruct (title d), (meta_description d), (page_title d). }
  split; [apply Hover|].
  split; [destruct sel as [|p rest]; [reflexivity | by apply Hover]|].
  destruct sel as [|p rest].
  { repeat split; try done; by intros []. }
  rewrite (updatePageMeta_fields (p :: rest)) by done.
  cbn [href query_ids data_ids title meta_description page_title header_row
       table_body error_message scripts].
  split; [destruct (title d); [apply Hsome | done]|].
  split; [destruct (meta_description d); [apply Hsome | done]|].
  split; [destruct (page_title d); [apply Hsome | done]|].
  split; [intros _ [old ->]; reflexivity|].
  repeat split.
Qed.

(** ** The first revision of the table *)

Section FirstRevision.

Variable read_back : string -> string.

Implicit Types (d : document) (phones : dataset).

Lemma generateComparisonTable_v1_shape phones d :
  generateComparisonTable_v1 read_back phones d =
  match header_row d, table_body d with
  | Some _, Some _ =>
      if length (getQueryParams d) =? 0 then Returned (set_table_body select_placeholder d)
      else if length (resolve (getQueryParams d) phones) =? 0 then
        match error_message d with
        | Some m => Returned (set_table_body not_found_placeholder
                               (set_error_message (mkMessage not_found_message "block") d))
        | None => Thrown d
        end
      else
        with_error_message (set_display "none")
          (set_table_body (read_back (join "" (spec_rows (resolve (getQueryParams d) phones)))
                           +:+ sourceRow (resolve (getQueryParams d) phones))
             (set_header_row (header_html (resolve (getQueryParams d) phones)) d))
  | _, _ => Returned d
  end.
Proof.
  unfold generateComparisonTable_v1. cbv zeta.
  destruct (header_row d) as [hdr|]; [|reflexivity].
  destruct (table_body d) as [body|]; [|reflexivity].
  destruct (length (getQueryParams d) =? 0); [reflexivity|].
  destruct (length (resolve (getQueryParams d) phones) =? 0).
  - unfold with_error_message, bind, try_catch.
    destruct (error_message d) as [m|] eqn:He; [reflexivity|].
    unfold on_error, with_error_message, bind. by rewrite He.
  - rewrite try_with_error_message. reflexivity.
Qed.

End FirstRevision.

(** X14. On a page with no [data-ids] element the first revision of
    [generateComparisonTable] leaves the same table header, table body and
    error box as the current one, and throws in the same cases; it leaves
    title, description, heading and scripts as they were. *)
Theorem first_revision_builds_the_same_table (read_back : string -> string)
  (phones : dataset) (d : document) :
  data_ids d = None ->
  header_row (final (generateComparisonTable_v1 read_back phones d))
    = header_row (final (generateComparisonTable read_back phones d))
  /\ table_body (final (generateComparisonTable_v1 read_back phones d))
     = table_body (final (generateComparisonTable read_back phones d))
  /\ error_message (final (generateComparisonTable_v1 read_back phones d))
     = error_message (final (generateComparisonTable read_back phones d))
  /\ ((exists x, generateComparisonTable_v1 read_back phones d = Thrown x) <->
      (exists y, generateComparisonTable read_back phones d = Thrown y))
  /\ title (final (generateComparisonTable_v1 read_back phones d)) = title d
  /\ meta_description (final (generateComparisonTable_v1 read_back phones d)) = meta_description d
  /\ page_title (final (generateComparisonTable_v1 read_back phones d)) = page_title d
  /\ scripts (final (generateComparisonTable_v1 read_back phones d)) = scripts d.
Proof.
  intros Hd.
  assert (getComparisonIds d = getQueryParams d) as Hids.
  { unfold getComparisonIds. by rewrite Hd. }
  rewrite generateComparisonTable_v1_shape.
  destruct (header_row d) as [hdr|] eqn:Hh.
  2:{ rewrite generateComparisonTable_no_mount by by left. simpl.
      repeat split; try done; by intros [? ?]. }
  destruct (table_body d) as [body|] eqn:Hb.
  2:{ rewrite generateComparisonTable_no_mount by by right. simpl.
      repeat split; try done; by intros [? ?]. }
  rewrite <- Hids.
  destruct (getComparisonIds d) as [|i L] eqn:Eids.
  { rewrite (generateComparisonTable_neutral _ _ _ _ _ Hh Hb Eids). simpl.
    repeat split; try done; by intros [? ?]. }
  assert (getComparisonIds d <> []) as Hne by by rewrite Eids.
  rewrite <- Eids in *. clear Eids.
  rewrite (length_zero_eqb_false _ Hne).
  destruct (resolve (getComparisonIds d) phones) as [|p sel] eqn:Hsel.
  - rewrite (generateComparisonTable_unresolved _ _ _ _ _ Hh Hb Hne Hsel). simpl.
    destruct (error_message d) as [m|] eqn:He; simpl; repeat split; try done.
  - assert (resolve (getComparisonIds d) phones <> []) as Hres by by rewrite Hsel.
    rewrite (generateComparisonTable_rendered _ _ _ _ _ Hh Hb Hres). rewrite Hsel.
    change (length (p :: sel) =? 0) with false. cbv iota.
    unfold with_error_message.
    change (error_message (rendered read_back (p :: sel) d)) with (error_message d).
    change (error_message (set_table_body _ (set_header_row _ d)))
      with (error_message d).
    destruct (error_message d) as [m|] eqn:He; cbn [final];
      repeat split; try done; try (by intros [? ?]); by eexists.
Qed.

Lemma first_revision_scenario :
  table_body (final (generateComparisonTable_v1 Scenario.as_assigned Scenario.phones
                       (Scenario.compare_page (Some "b,zz,a") None)))
  = table_body (final (generateComparisonTable Scenario.as_assigned Scenario.phones
                         (Scenario.compare_page (Some "b,zz,a") None))).
Proof.
  exact (proj1 (proj2 (first_revision_builds_the_same_table Scenario.as_assigned
                         Scenario.phones
                         (Scenario.compare_page (Some "b,zz,a") None) eq_refl))).
Defined.

(** ** The phone page *)

Section PhoneFacts.

Variable dv : value -> bool.
Variable tl : value -> string.









End PhoneFacts.

